(** * hianimez_scraper: a shallow embedding and its verified properties

    The development follows [hianimez_scraper.py] and [config.py].

    Conventions of the model.
    - A Python [str] is a [string]; a character is a code point below 256,
      so the case folding of [re.I] and the classes [\s], [\d] are the ones
      Python applies to that range.
    - The network, the headless browser and the HTML parser are the
      environment: they are variables of the sections below, and every
      request and every [time.sleep] is recorded in a trace.
    - A raised exception is a value of [exn]; effectful functions live in a
      small trace-and-error monad. *)

From Stdlib Require Import Bool Arith ZArith NArith Lia List.
From Stdlib Require Import Ascii String.
From Stdlib Require Import Sorted Permutation.
Import ListNotations.

Set Implicit Arguments.
Set Warnings "-register-all".
Open Scope list_scope.
Open Scope string_scope.

(* ------------------------------------------------------------------ *)
(** * Characters and the [str] methods the scraper uses *)
(* ------------------------------------------------------------------ *)

Module Str.

Definition between (lo hi c : ascii) : bool :=
  (lo <=? c)%char && (c <=? hi)%char.

(** [str.isspace] on one character: 0x09-0x0D, 0x1C-0x20, 0x85, 0xA0. *)
Definition isspace (c : ascii) : bool :=
  between "009" "013" c || between "028" " " c
  || (c =? "133")%char || (c =? "160")%char.

(** The double quote, code point 34, and a way to write text that holds
    it: [dq] turns every apostrophe of its argument into a double quote. *)
Definition dquote : ascii := "034".

Fixpoint dq (s : string) : string :=
  match s with
  | EmptyString => EmptyString
  | String c s' => String (if (c =? "'")%char then dquote else c) (dq s')
  end.

Definition is_ascii_digit (c : ascii) : bool := between "0" "9" c.
Definition is_ascii_upper (c : ascii) : bool := between "A" "Z" c.
Definition is_ascii_lower (c : ascii) : bool := between "a" "z" c.
Definition is_ascii_alpha (c : ascii) : bool :=
  is_ascii_upper c || is_ascii_lower c.

(** Lower-casing of an ASCII letter (all that [re.I] needs for the
    literals of the patterns, and all that [str.lower] does to a scheme). *)
Definition lower_ascii (c : ascii) : ascii :=
  if is_ascii_upper c
  then ascii_of_N (N_of_ascii c + 32)
  else c.

Fixpoint lower (s : string) : string :=
  match s with
  | EmptyString => EmptyString
  | String c s' => String (lower_ascii c) (lower s')
  end.

Fixpoint forallb (p : ascii -> bool) (s : string) : bool :=
  match s with
  | EmptyString => true
  | String c s' => p c && forallb p s'
  end.

Fixpoint existsb (p : ascii -> bool) (s : string) : bool :=
  match s with
  | EmptyString => false
  | String c s' => p c || existsb p s'
  end.

Definition mem (c : ascii) (s : string) : bool :=
  existsb (Ascii.eqb c) s.

Definition is_empty (s : string) : bool :=
  match s with EmptyString => true | _ => false end.

(** Truthiness of a [str]. *)
Definition truthy (s : string) : bool := negb (is_empty s).

(** [s.lstrip(chars)] with the character set given as a predicate. *)
Fixpoint lstrip_by (p : ascii -> bool) (s : string) : string :=
  match s with
  | EmptyString => EmptyString
  | String c s' => if p c then lstrip_by p s' else s
  end.

(** [s.rstrip(chars)]. *)
Fixpoint rstrip_by (p : ascii -> bool) (s : string) : string :=
  match s with
  | EmptyString => EmptyString
  | String c s' =>
      match rstrip_by p s' with
      | EmptyString => if p c then EmptyString else String c EmptyString
      | r => String c r
      end
  end.

Definition strip_by (p : ascii -> bool) (s : string) : string :=
  rstrip_by p (lstrip_by p s).

(** [s.strip()] *)
Definition strip (s : string) : string := strip_by isspace s.

(** [s.rstrip("/")] *)
Definition rstrip_slash (s : string) : string :=
  rstrip_by (Ascii.eqb "/") s.

(** [s.isdigit()] for the digit strings the patterns can capture. *)
Definition isdigit (s : string) : bool :=
  truthy s && forallb is_ascii_digit s.

Definition digit_val (c : ascii) : N := N_of_ascii c - 48.

Fixpoint int_acc (acc : N) (s : string) : N :=
  match s with
  | EmptyString => acc
  | String c s' => int_acc (10 * acc + digit_val c) s'
  end.

(** [int(s)] for [s] a string of decimal digits. *)
Definition int (s : string) : N := int_acc 0 s.

(** [s[:n]] and [s[n:]]. *)
Fixpoint take (n : nat) (s : string) : string :=
  match n, s with
  | S n', String c s' => String c (take n' s')
  | _, _ => EmptyString
  end.

Fixpoint drop (n : nat) (s : string) : string :=
  match n, s with
  | S n', String _ s' => drop n' s'
  | _, _ => s
  end.

Fixpoint starts_with (p s : string) : bool :=
  match p, s with
  | EmptyString, _ => true
  | String a p', String b s' => (a =? b)%char && starts_with p' s'
  | String _ _, EmptyString => false
  end.

(** [sub in s] *)
Fixpoint contains (sub s : string) : bool :=
  starts_with sub s ||
  match s with
  | EmptyString => false
  | String _ s' => contains sub s'
  end.

(** [s.find(c)] for a single character: [None] stands for -1. *)
Fixpoint find_char (c : ascii) (s : string) : option nat :=
  match s with
  | EmptyString => None
  | String a s' =>
      if (a =? c)%char then Some 0
      else option_map S (find_char c s')
  end.

(** [s.replace(c, "")] for a single character. *)
Fixpoint remove_char (c : ascii) (s : string) : string :=
  match s with
  | EmptyString => EmptyString
  | String a s' =>
      if (a =? c)%char then remove_char c s' else String a (remove_char c s')
  end.

(** [s.split(c)] for a single-character separator: never empty. *)
Fixpoint split (c : ascii) (s : string) : list string :=
  match s with
  | EmptyString => [EmptyString]
  | String a s' =>
      if (a =? c)%char then EmptyString :: split c s'
      else match split c s' with
           | [] => [String a EmptyString]
           | w :: ws => String a w :: ws
           end
  end.

(** [s.split(c, 1)] when [c] occurs in [s]; [None] when it does not. *)
Fixpoint split_once (c : ascii) (s : string) : option (string * string) :=
  match s with
  | EmptyString => None
  | String a s' =>
      if (a =? c)%char then Some (EmptyString, s')
      else match split_once c s' with
           | Some (l, r) => Some (String a l, r)
           | None => None
           end
  end.

(** [sep.join(parts)] *)
Fixpoint join (sep : string) (parts : list string) : string :=
  match parts with
  | [] => EmptyString
  | [w] => w
  | w :: ws => w ++ sep ++ join sep ws
  end.

(** The maximal runs of non-space characters ([\S+]). *)
Fixpoint words_acc (cur : string) (s : string) : list string :=
  match s with
  | EmptyString => if is_empty cur then [] else [cur]
  | String c s' =>
      if isspace c
      then (if is_empty cur then words_acc EmptyString s'
            else cur :: words_acc EmptyString s')
      else words_acc (cur ++ String c EmptyString) s'
  end.

Definition words (s : string) : list string := words_acc EmptyString s.

End Str.

(* ------------------------------------------------------------------ *)
(** * Regular expressions ([re.search] with one capturing group) *)
(* ------------------------------------------------------------------ *)

Module Re.

(** The fragment of the pattern language the scraper's five patterns use.
    Every quantifier of the source applies to a single-character atom. *)
Inductive regex : Type :=
| Lit (s : string)                 (* literal text *)
| Many0 (p : ascii -> bool)        (* atom* , greedy *)
| Many1 (p : ascii -> bool)        (* atom+ , greedy *)
| Opt (p : ascii -> bool)          (* atom? , greedy *)
| Seq (r1 r2 : regex)
| Alt (r1 r2 : regex)              (* r1|r2, left first *)
| Group (r : regex).               (* ( r ), group 1 *)

(** Character comparison, under [re.I] when [ic] is set. *)
Definition chr_eq (ic : bool) (a b : ascii) : bool :=
  if ic then (Str.lower_ascii a =? Str.lower_ascii b)%char
  else (a =? b)%char.

(** Matching a literal at the head of the text: the rest, if it matches. *)
Fixpoint lit (ic : bool) (p s : string) : option string :=
  match p, s with
  | EmptyString, _ => Some s
  | String a p', String b s' =>
      if chr_eq ic a b then lit ic p' s' else None
  | String _ _, EmptyString => None
  end.

(** The texts left after a greedy run of [p]: longest run first. *)
Fixpoint many (p : ascii -> bool) (s : string) : list string :=
  match s with
  | EmptyString => [s]
  | String c s' => if p c then (many p s' ++ [s])%list else [s]
  end.

(** The text a match consumed, given what it started from and what it
    left. *)
Definition consumed (s rest : string) : string :=
  Str.take (String.length s - String.length rest) s.

(** All the ways [r] matches at the head of [s], in the order in which a
    backtracking matcher tries them: each is the value of group 1 and the
    rest of the text. *)
Fixpoint rmatch (ic : bool) (r : regex) (cap : option string) (s : string)
  : list (option string * string) :=
  match r with
  | Lit p =>
      match lit ic p s with
      | Some rest => [(cap, rest)]
      | None => []
      end
  | Many0 p => map (fun rest => (cap, rest)) (many p s)
  | Many1 p =>
      match s with
      | String c s' =>
          if p c then map (fun rest => (cap, rest)) (many p s') else []
      | EmptyString => []
      end
  | Opt p =>
      match s with
      | String c s' => if p c then [(cap, s'); (cap, s)] else [(cap, s)]
      | EmptyString => [(cap, s)]
      end
  | Seq r1 r2 =>
      flat_map (fun m => rmatch ic r2 (fst m) (snd m)) (rmatch ic r1 cap s)
  | Alt r1 r2 => (rmatch ic r1 cap s ++ rmatch ic r2 cap s)%list
  | Group r1 =>
      map (fun m => (Some (consumed s (snd m)), snd m)) (rmatch ic r1 cap s)
  end.

(** [re.match]: the first way, if any; the result is [m.group(1)]. *)
Definition match_at (ic : bool) (r : regex) (s : string)
  : option (option string) :=
  match rmatch ic r None s with
  | m :: _ => Some (fst m)
  | [] => None
  end.

(** [re.search]: the leftmost position at which the pattern matches. *)
Fixpoint search (ic : bool) (r : regex) (s : string)
  : option (option string) :=
  match match_at ic r s with
  | Some g => Some g
  | None =>
      match s with
      | EmptyString => None
      | String _ s' => search ic r s'
      end
  end.

(** [m.group(1) if m else None], for a pattern whose group always takes
    part in a match. *)
Definition group1 (m : option (option string)) : option string :=
  match m with
  | Some g => g
  | None => None
  end.

Fixpoint seq (rs : list regex) : regex :=
  match rs with
  | [] => Lit ""
  | [r] => r
  | r :: rs' => Seq r (seq rs')
  end.

(** The classes of the patterns: [\s]; [\d] and [[0-9]] (the same set on
    code points below 256); any character but the double quote;
    [[-_/ ]]. *)
Definition ws : ascii -> bool := Str.isspace.
Definition digit : ascii -> bool := Str.is_ascii_digit.
Definition not_quote (c : ascii) : bool := negb (c =? Str.dquote)%char.
Definition ep_sep (c : ascii) : bool :=
  (c =? "-")%char || (c =? "_")%char || (c =? "/")%char || (c =? " ")%char.

End Re.

(* ------------------------------------------------------------------ *)
(** * [urllib.parse]: [urlparse], [urlunparse], [urljoin], [quote_plus] *)
(* ------------------------------------------------------------------ *)

Module Url.

(** The tables of [urllib.parse]. *)
Definition uses_relative : list string :=
  [""; "ftp"; "http"; "gopher"; "nntp"; "imap"; "wais"; "file"; "https";
   "shttp"; "mms"; "prospero"; "rtsp"; "rtsps"; "rtspu"; "sftp"; "svn";
   "svn+ssh"; "ws"; "wss"].

Definition uses_netloc : list string :=
  [""; "ftp"; "http"; "gopher"; "nntp"; "telnet"; "imap"; "wais"; "file";
   "mms"; "https"; "shttp"; "snews"; "prospero"; "rtsp"; "rtsps"; "rtspu";
   "rsync"; "svn"; "svn+ssh"; "sftp"; "nfs"; "git"; "git+ssh"; "ws"; "wss";
   "itms-services"].

Definition uses_params : list string :=
  [""; "ftp"; "hdl"; "prospero"; "http"; "imap"; "https"; "shttp"; "rtsp";
   "rtsps"; "rtspu"; "sip"; "sips"; "mms"; "sftp"; "tel"].

Definition in_list (s : string) (l : list string) : bool :=
  List.existsb (String.eqb s) l.

(** [scheme_chars]: letters, digits and [+-.] *)
Definition scheme_char (c : ascii) : bool :=
  Str.is_ascii_alpha c || Str.is_ascii_digit c
  || (c =? "+")%char || (c =? "-")%char || (c =? ".")%char.

(** [_WHATWG_C0_CONTROL_OR_SPACE]: code points 0 to 32. *)
Definition c0_or_space (c : ascii) : bool := (c <=? " ")%char.

(** Removal of [_UNSAFE_URL_BYTES_TO_REMOVE]: tab, CR, LF. *)
Definition remove_unsafe (s : string) : string :=
  Str.remove_char "010" (Str.remove_char "013" (Str.remove_char "009" s)).

Record SplitResult : Type := mkSplit {
  s_scheme : string; s_netloc : string; s_path : string;
  s_query : string; s_fragment : string }.

Record ParseResult : Type := mkParse {
  scheme : string; netloc : string; path : string;
  params : string; query : string; fragment : string }.

(** The text before the first character satisfying [p], and the text from
    that character on. *)
Fixpoint break_at (p : ascii -> bool) (s : string) : string * string :=
  match s with
  | EmptyString => (EmptyString, EmptyString)
  | String c s' =>
      if p c then (EmptyString, s)
      else let (l, r) := break_at p s' in (String c l, r)
  end.

Definition netloc_delim (c : ascii) : bool :=
  (c =? "/")%char || (c =? "?")%char || (c =? "#")%char.

(** [_splitnetloc(url, 2)] *)
Definition _splitnetloc2 (url : string) : string * string :=
  break_at netloc_delim (Str.drop 2 url).

(** The scheme of [url[:i]] when the text before the first colon is one,
    and what follows the colon. *)
Definition split_scheme (url : string) : option (string * string) :=
  match Str.find_char ":" url with
  | Some (S i) =>
      match url with
      | String c0 _ =>
          if Str.is_ascii_alpha c0
             && Str.forallb scheme_char (Str.take (S i) url)
          then Some (Str.lower (Str.take (S i) url), Str.drop (S (S i)) url)
          else None
      | EmptyString => None
      end
  | _ => None
  end.

Section Parse.

(** The validation of a bracketed netloc ([_check_bracketed_host],
    which parses an IPv6 or IPvFuture literal): [false] when it raises
    [ValueError]. It belongs to the library and differs among its
    versions, so it is a parameter here. *)
Variable bracketed_ok : string -> bool.

(** [urlsplit(url, scheme)]; [None] is a raised [ValueError]. *)
Definition urlsplit (url0 scheme0 : string) : option SplitResult :=
  let url := remove_unsafe (Str.lstrip_by c0_or_space url0) in
  let dscheme := remove_unsafe (Str.strip_by c0_or_space scheme0) in
  let '(sch, url) :=
    match split_scheme url with
    | Some (sch, rest) => (sch, rest)
    | None => (dscheme, url)
    end in
  let '(nl, url) :=
    if Str.starts_with "//" url then _splitnetloc2 url
    else (EmptyString, url) in
  let has_open := Str.mem "[" nl in
  let has_close := Str.mem "]" nl in
  if (has_open && negb has_close) || (has_close && negb has_open)
  then None
  else if has_open && has_close && negb (bracketed_ok nl)
  then None
  else
    let '(url, frag) :=
      match Str.split_once "#" url with
      | Some (u, f) => (u, f)
      | None => (url, EmptyString)
      end in
    let '(url, qry) :=
      match Str.split_once "?" url with
      | Some (u, q) => (u, q)
      | None => (url, EmptyString)
      end in
    Some (mkSplit sch nl url qry frag).

(** [url.rfind("/")] when there is one: the text up to and including
    the last slash, and the text after it. *)
Fixpoint rsplit_slash (s : string) : option (string * string) :=
  match s with
  | EmptyString => None
  | String c s' =>
      match rsplit_slash s' with
      | Some (l, r) => Some (String c l, r)
      | None =>
          if (c =? "/")%char then Some (String c EmptyString, s')
          else None
      end
  end.

(** [_splitparams(url)] *)
Definition _splitparams (url : string) : string * string :=
  match rsplit_slash url with
  | Some (dir, last) =>
      match Str.split_once ";" last with
      | Some (l, r) => (dir ++ l, r)
      | None => (url, EmptyString)
      end
  | None =>
      match Str.split_once ";" url with
      | Some (l, r) => (l, r)
      | None => (Str.take (String.length url - 1) url, url)
      end
  end.

(** [urlparse(url, scheme)] *)
Definition urlparse (url0 scheme0 : string) : option ParseResult :=
  match urlsplit url0 scheme0 with
  | None => None
  | Some r =>
      let '(url, prm) :=
        if in_list (s_scheme r) uses_params && Str.mem ";" (s_path r)
        then _splitparams (s_path r)
        else (s_path r, EmptyString) in
      Some (mkParse (s_scheme r) (s_netloc r) url prm
                    (s_query r) (s_fragment r))
  end.

(** [urlunsplit((scheme, netloc, url, query, fragment))] *)
Definition urlunsplit (sch nl url qry frag : string) : string :=
  let url :=
    if Str.truthy nl
       || (Str.truthy sch && in_list sch uses_netloc
           && negb (Str.starts_with "//" url))
    then
      let url :=
        if Str.truthy url && negb (Str.starts_with "/" url)
        then "/" ++ url else url in
      "//" ++ nl ++ url
    else url in
  let url := if Str.truthy sch then sch ++ ":" ++ url else url in
  let url := if Str.truthy qry then url ++ "?" ++ qry else url in
  let url := if Str.truthy frag then url ++ "#" ++ frag else url in
  url.

(** [urlunparse((scheme, netloc, url, params, query, fragment))] *)
Definition urlunparse (p : ParseResult) : string :=
  let url :=
    if Str.truthy (params p) then path p ++ ";" ++ params p
    else path p in
  urlunsplit (scheme p) (netloc p) url (query p) (fragment p).

(** [segments[1:-1] = filter(None, segments[1:-1])] *)
Definition filter_middle (segments : list string) : list string :=
  match segments with
  | [] => []
  | first :: rest =>
      match rev rest with
      | [] => [first]
      | last :: rmid =>
          (first :: filter Str.truthy (rev rmid) ++ [last])%list
      end
  end.

(** The loop of [urljoin] that resolves [.] and [..] segments. *)
Definition resolve_step (resolved : list string) (seg : string)
  : list string :=
  if (seg =? "..")%string then removelast resolved
  else if (seg =? ".")%string then resolved
  else (resolved ++ [seg])%list.

Definition resolve (segments : list string) : list string :=
  fold_left resolve_step segments [].

Definition last_is_dot (segments : list string) : bool :=
  let l := last segments EmptyString in
  (l =? ".")%string || (l =? "..")%string.

(** [urljoin(base, url)]; [None] is a [ValueError] raised by one of
    the two [urlparse] calls. *)
Definition urljoin (base url : string) : option string :=
  if Str.is_empty base then Some url
  else if Str.is_empty url then Some base
  else
    match urlparse base EmptyString with
    | None => None
    | Some b =>
        match urlparse url (scheme b) with
        | None => None
        | Some u =>
            if negb (scheme u =? scheme b)%string
               || negb (in_list (scheme u) uses_relative)
            then Some url
            else if in_list (scheme u) uses_netloc && Str.truthy (netloc u)
            then Some (urlunparse u)
            else
              let nl := if in_list (scheme u) uses_netloc
                        then netloc b else netloc u in
              if Str.is_empty (path u) && Str.is_empty (params u)
              then
                Some (urlunparse
                        (mkParse (scheme u) nl (path b) (params b)
                           (if Str.is_empty (query u) then query b
                            else query u)
                           (fragment u)))
              else
                let base_parts := Str.split "/" (path b) in
                let base_parts :=
                  if negb (last base_parts EmptyString =? "")%string
                  then removelast base_parts else base_parts in
                let segments :=
                  if Str.starts_with "/" (path u)
                  then Str.split "/" (path u)
                  else filter_middle
                         (base_parts ++ Str.split "/" (path u))%list in
                let resolved := resolve segments in
                let resolved :=
                  if last_is_dot segments
                  then (resolved ++ [EmptyString])%list else resolved in
                let joined := Str.join "/" resolved in
                Some (urlunparse
                        (mkParse (scheme u) nl
                           (if Str.is_empty joined then "/" else joined)
                           (params u) (query u) (fragment u)))
        end
    end.

End Parse.

(** *** [ParseResult.hostname] *)

(** [s.rpartition(c)[2]]: the text after the last [c], all of [s] when
    there is none. *)
Fixpoint after_last (c : ascii) (s : string) : string :=
  match s with
  | EmptyString => EmptyString
  | String a s' =>
      if Str.mem c s' then after_last c s'
      else if (a =? c)%char then s' else s
  end.

(** [s.partition(c)[0]]: the text before the first [c]. *)
Definition before_first (c : ascii) (s : string) : string :=
  fst (break_at (Ascii.eqb c) s).

(** [s.partition(c)[2]]: the text after the first [c], empty when there
    is none. *)
Definition after_first (c : ascii) (s : string) : string :=
  match Str.split_once c s with
  | Some (_, r) => r
  | None => EmptyString
  end.

(** [_hostinfo[0]]: the netloc without its userinfo and port. *)
Definition hostinfo_name (netloc : string) : string :=
  let hostinfo := after_last "@" netloc in
  if Str.mem "[" hostinfo
  then before_first "]" (after_first "[" hostinfo)
  else before_first ":" hostinfo.

(** [p.hostname]: [None] when the netloc names no host; otherwise the
    host, in lower case up to a zone identifier. *)
Definition hostname (netloc : string) : option string :=
  let h := hostinfo_name netloc in
  if Str.is_empty h then None
  else
    match Str.split_once "%" h with
    | Some (name, zone) => Some (Str.lower name ++ "%" ++ zone)
    | None => Some (Str.lower h)
    end.

(** *** [quote_plus] *)

Definition hex_digit (n : N) : ascii :=
  if (n <? 10)%N then ascii_of_N (48 + n) else ascii_of_N (55 + n).

Definition percent (n : N) : string :=
  String "%" (String (hex_digit (n / 16)) (String (hex_digit (n mod 16)) "")).

(** The characters [quote] never escapes: letters, digits, [_.-~]. *)
Definition always_safe (c : ascii) : bool :=
  Str.is_ascii_alpha c || Str.is_ascii_digit c
  || (c =? "_")%char || (c =? ".")%char || (c =? "-")%char
  || (c =? "~")%char.

(** One character of [quote_plus(s)]: a space becomes [+], a safe
    character stays, anything else is the percent-escape of its UTF-8
    encoding (two bytes from code point 128 on). *)
Definition quote_plus_char (c : ascii) : string :=
  let n := N_of_ascii c in
  if (c =? " ")%char then "+"
  else if always_safe c then String c EmptyString
  else if (n <? 128)%N then percent n
  else percent (192 + n / 64) ++ percent (128 + n mod 64).

Fixpoint quote_plus (s : string) : string :=
  match s with
  | EmptyString => EmptyString
  | String c s' => quote_plus_char c ++ quote_plus s'
  end.

End Url.

(* ------------------------------------------------------------------ *)
(** * The parsed document ([BeautifulSoup]) and its selectors *)
(* ------------------------------------------------------------------ *)

Module Soup.

(** A parsed document: elements with their attributes and contents, and
    text nodes. The [BeautifulSoup] object itself is the element named
    [[document]]. Tag and attribute names are in lower case, as the
    [lxml] parser leaves them. *)
Inductive node : Type :=
| Tag (name : string) (attrs : list (string * string)) (contents : list node)
| NavigableString (text : string).

Definition name_of (n : node) : string :=
  match n with Tag nm _ _ => nm | NavigableString _ => EmptyString end.

Definition is_tag (n : node) : bool :=
  match n with Tag _ _ _ => true | NavigableString _ => false end.

Fixpoint lookup (key : string) (attrs : list (string * string))
  : option string :=
  match attrs with
  | [] => None
  | (k, v) :: rest => if (k =? key)%string then Some v else lookup key rest
  end.

(** [tag.get(key)] *)
Definition get (n : node) (key : string) : option string :=
  match n with
  | Tag _ attrs _ => lookup key attrs
  | NavigableString _ => None
  end.

(** [tag.get(key, default)] *)
Definition get_default (n : node) (key default : string) : string :=
  match get n key with Some v => v | None => default end.

(** [tag.descendants], in document order, each with the chain of its
    ancestors (nearest first) up to the root of the document, given the
    ancestors [anc] of [n] itself. *)
Fixpoint descendants (anc : list node) (n : node)
  : list (list node * node) :=
  match n with
  | NavigableString _ => []
  | Tag _ _ cs =>
      (fix go (l : list node) : list (list node * node) :=
         match l with
         | [] => []
         | c :: l' =>
             ((n :: anc, c) :: descendants (n :: anc) c ++ go l')%list
         end) cs
  end.

(** [tag.get_text(separator, strip=True)]: the stripped text nodes below
    the tag that are not empty, joined by the separator. *)
Definition stripped_strings (n : node) : list string :=
  filter Str.truthy
    (flat_map (fun d => match snd d with
                        | NavigableString s => [Str.strip s]
                        | Tag _ _ _ => []
                        end)
              (descendants [] n)).

Definition get_text (separator : string) (n : node) : string :=
  Str.join separator (stripped_strings n).

(** The CSS selectors of the scraper. *)
Inductive simple : Type :=
| Type_ (tag : string)                  (* div *)
| Class_ (c : string)                   (* .c *)
| Id_ (i : string)                      (* #i *)
| HasAttr (a : string)                  (* [a] *)
| AttrContains (a v : string).          (* [a*='v'] *)

Inductive selector : Type :=
| Compound (c : list simple)                       (* a[href] *)
| Descendant (anc : list simple) (c : list simple). (* div.x a[href] *)

Definition has_class (c : string) (n : node) : bool :=
  match get n "class" with
  | Some v => Url.in_list c (Str.words v)
  | None => false
  end.

Definition match_simple (s : simple) (n : node) : bool :=
  is_tag n &&
  match s with
  | Type_ t => (name_of n =? t)%string
  | Class_ c => has_class c n
  | Id_ i => (get_default n "id" "" =? i)%string
  | HasAttr a => match get n a with Some _ => true | None => false end
  | AttrContains a v =>
      match get n a with Some x => Str.contains v x | None => false end
  end.

Definition match_compound (c : list simple) (n : node) : bool :=
  List.forallb (fun s => match_simple s n) c.

Definition matches (sel : selector) (d : list node * node) : bool :=
  match sel with
  | Compound c => match_compound c (snd d)
  | Descendant a c =>
      match_compound c (snd d) && List.existsb (match_compound a) (fst d)
  end.

(** [tag.select(sel)] for a tag with ancestors [anc]: the matching
    descendants, in document order. *)
Definition select (sel : selector) (d : list node * node)
  : list (list node * node) :=
  filter (matches sel) (descendants (fst d) (snd d)).

(** [tag.select_one(sel)] *)
Definition select_one (sel : selector) (d : list node * node)
  : option (list node * node) :=
  hd_error (select sel d).

(** [tag.find(name, class_=c)] *)
Definition find (name c : string) (d : list node * node)
  : option (list node * node) :=
  hd_error (filter (fun x => match_compound [Type_ name; Class_ c] (snd x))
              (descendants (fst d) (snd d))).

End Soup.

(* ------------------------------------------------------------------ *)
(** * Effects: the trace of requests, exceptions *)
(* ------------------------------------------------------------------ *)

Module Eff.

(** The exceptions the scraper can meet. *)
Inductive exn : Type :=
| RequestException (what : string)  (* raised by [session.get] *)
| HTTPError (status : Z)            (* raised by [raise_for_status] *)
| PlaywrightError (what : string)   (* raised while rendering a page *)
| ValueError                        (* raised by [urlparse] *)
| IndexError                        (* [pool[0]] on an empty pool *)
| TypeError.                        (* [raise None]: exceptions must
                                       derive from BaseException *)

Inductive client : Type :=
| Requests       (* [requests.Session()] *)
| Cloudscraper.  (* [cloudscraper.create_scraper()] *)

(** What the program does to the world, in order. Durations are in
    milliseconds. *)
Inductive event : Type :=
| EvGet (c : client) (url : string) (timeout_ms : N)
| EvSleep (ms : N)
| EvRender (url : string).

Definition trace : Type := list event.

Inductive response : Type :=
| Response (status_code : Z) (text : string)
| Failure (e : exn).

Inductive result (A : Type) : Type :=
| Ok (a : A)
| Raise (e : exn).
Arguments Ok {A} a.
Arguments Raise {A} e.

(** A computation reads the trace so far and extends it. *)
Definition M (A : Type) : Type := trace -> result A * trace.

Definition ret {A} (a : A) : M A := fun t => (Ok a, t).
Definition raise {A} (e : exn) : M A := fun t => (Raise e, t).

Definition bind {A B} (m : M A) (k : A -> M B) : M B :=
  fun t =>
    match m t with
    | (Ok a, t') => k a t'
    | (Raise e, t') => (Raise e, t')
    end.

(** [try: m except Exception as e: h e] *)
Definition catch {A} (m : M A) (h : exn -> M A) : M A :=
  fun t =>
    match m t with
    | (Ok a, t') => (Ok a, t')
    | (Raise e, t') => h e t'
    end.

Definition lift {A} (r : result A) : M A := fun t => (r, t).

Definition emit (e : event) : M unit := fun t => (Ok tt, (t ++ [e])%list).

(** [raise v] for a variable that holds an exception or [None]. *)
Definition raise_value {A} (v : option exn) : M A :=
  match v with
  | Some e => raise e
  | None => raise TypeError
  end.

Definition is_get (e : event) : bool :=
  match e with EvGet _ _ _ => true | _ => false end.

(** The number of requests in a trace. *)
Definition requests (t : trace) : nat := List.length (filter is_get t).

End Eff.

Declare Scope eff_scope.
Delimit Scope eff_scope with eff.
Notation "x <- m ;; k" := (Eff.bind m (fun x => k))
  (at level 61, m at next level, right associativity) : eff_scope.
Notation "m ;;; k" := (Eff.bind m (fun _ => k))
  (at level 61, right associativity) : eff_scope.

(* ------------------------------------------------------------------ *)
(** * The scraper *)
(* ------------------------------------------------------------------ *)

Module Scraper.
Import Eff.
Local Open Scope eff_scope.

(** ** The patterns of [get_episodes_list] and
       [extract_episode_stream_and_subtitle]

    All five are used with [re.I]. In the comments an apostrophe stands
    for the double quote of the source pattern; in the definitions that
    character is the literal [Q]. *)

Definition Q : Re.regex := Re.Lit (String Str.dquote "").

(** [Episode\s*([0-9]+)] *)
Definition re_episode_text : Re.regex :=
  Re.seq [Re.Lit "Episode"; Re.Many0 Re.ws; Re.Group (Re.Many1 Re.digit)].

(** [episode[-_/ ]?(\d+)] *)
Definition re_episode_href : Re.regex :=
  Re.seq [Re.Lit "episode"; Re.Opt Re.ep_sep; Re.Group (Re.Many1 Re.digit)].

(** ['label'\s*:\s*'HD-2'\s*,\s*'(?:file|url)'\s*:\s*'([^']+\.m3u8)'] *)
Definition re_hls : Re.regex :=
  Re.seq [Q; Re.Lit "label"; Q; Re.Many0 Re.ws; Re.Lit ":"; Re.Many0 Re.ws;
          Q; Re.Lit "HD-2"; Q; Re.Many0 Re.ws; Re.Lit ","; Re.Many0 Re.ws;
          Q; Re.Alt (Re.Lit "file") (Re.Lit "url"); Q;
          Re.Many0 Re.ws; Re.Lit ":"; Re.Many0 Re.ws;
          Q; Re.Group (Re.Seq (Re.Many1 Re.not_quote) (Re.Lit ".m3u8")); Q].

(** The tail the two subtitle patterns share:
    [\s*,\s*'(?:file|url|src)'\s*:\s*'([^']+\.(?:vtt|srt))'] *)
Definition re_sub_file : list Re.regex :=
  [Re.Many0 Re.ws; Re.Lit ","; Re.Many0 Re.ws;
   Q; Re.Alt (Re.Lit "file") (Re.Alt (Re.Lit "url") (Re.Lit "src")); Q;
   Re.Many0 Re.ws; Re.Lit ":"; Re.Many0 Re.ws;
   Q;
   Re.Group (Re.seq [Re.Many1 Re.not_quote; Re.Lit ".";
                     Re.Alt (Re.Lit "vtt") (Re.Lit "srt")]);
   Q].

(** ['srclang'\s*:\s*'en'] followed by the shared tail. *)
Definition re_sub_code : Re.regex :=
  Re.seq ([Q; Re.Lit "srclang"; Q; Re.Many0 Re.ws; Re.Lit ":";
           Re.Many0 Re.ws; Q; Re.Lit "en"; Q] ++ re_sub_file)%list.

(** ['lang'\s*:\s*'English[^']*'] followed by the shared tail. *)
Definition re_sub_name : Re.regex :=
  Re.seq ([Q; Re.Lit "lang"; Q; Re.Many0 Re.ws; Re.Lit ":"; Re.Many0 Re.ws;
           Q; Re.Lit "English"; Re.Many0 Re.not_quote; Q]
          ++ re_sub_file)%list.

(** ** The selectors *)

Definition sel_film_poster_links : Soup.selector :=
  Soup.Descendant [Soup.Type_ "div"; Soup.Class_ "film-poster"]
                  [Soup.Type_ "a"; Soup.HasAttr "href"].

Definition sel_links : Soup.selector :=
  Soup.Compound [Soup.Type_ "a"; Soup.HasAttr "href"].

Definition sel_episode_links : Soup.selector :=
  Soup.Compound [Soup.Type_ "a"; Soup.AttrContains "href" "episode"].

(** [["ul.episodes", "div.episode-list", "div#episodes",
      "div#episode_page"]] *)
Definition container_selectors : list Soup.selector :=
  [Soup.Compound [Soup.Type_ "ul"; Soup.Class_ "episodes"];
   Soup.Compound [Soup.Type_ "div"; Soup.Class_ "episode-list"];
   Soup.Compound [Soup.Type_ "div"; Soup.Id_ "episodes"];
   Soup.Compound [Soup.Type_ "div"; Soup.Id_ "episode_page"]].

(** ** Sorting and deduplication *)

(** [seen[k] = True] on a dictionary that keeps insertion order: a key
    already present keeps its place. *)
Fixpoint dict_set {K V} (eqb : K -> K -> bool) (d : list (K * V))
         (k : K) (v : V) : list (K * V) :=
  match d with
  | [] => [(k, v)]
  | (k', v') :: d' =>
      if eqb k' k then (k', v) :: d' else (k', v') :: dict_set eqb d' k v
  end.

Definition ref_eqb (a b : string * string) : bool :=
  (fst a =? fst b)%string && (snd a =? snd b)%string.

(** The sort key: [(int(x[0]) if x[0].isdigit() else 10**9, x[1])] *)
Definition sort_key (x : string * string) : N * string :=
  (if Str.isdigit (fst x) then Str.int (fst x) else 10 ^ 9, snd x)%N.

(** The order of Python on such tuples. *)
Definition key_leb (a b : N * string) : bool :=
  (fst a <? fst b)%N || ((fst a =? fst b)%N && String.leb (snd a) (snd b)).

(** [sorted(l, key=key)]: the sort of Python is stable, and a stable
    sort has one possible result; it is computed here by insertion. *)
Fixpoint insert {A} (key : A -> N * string) (x : A) (l : list A) : list A :=
  match l with
  | [] => [x]
  | y :: l' =>
      if key_leb (key x) (key y) then x :: l
      else y :: insert key x l'
  end.

Definition sorted {A} (key : A -> N * string) (l : list A) : list A :=
  fold_right (insert key) [] l.

(** The loop [for num, url in episodes: seen[(num, url)] = True], from
    the dictionary [seen]. *)
Definition seen_of (episodes : list (string * string))
           (seen : list (string * string * bool))
  : list (string * string * bool) :=
  fold_left (fun d x => dict_set ref_eqb d x true) episodes seen.

(** Lines 151-156: deduplicate, then sort the keys of [seen]. *)
Definition dedup_sort (episodes : list (string * string))
  : list (string * string) :=
  sorted sort_key (map fst (seen_of episodes [])).

Section Env.

(** *** Configuration ([config.py]) *)
Variable HIANIME_DOMAIN_POOL : list string.
Variable HTTP_TIMEOUT : N.     (* milliseconds *)
Variable RETRIES : Z.

(** *** The environment *)
(** The answer of the network to a request, given all that happened
    before it. *)
Variable http_get : trace -> client -> string -> response.
(** The markup the browser holds once the page has loaded, or the
    exception the navigation raised. *)
Variable browser : trace -> string -> result string.
(** [BeautifulSoup(html, "lxml")] *)
Variable BeautifulSoup : string -> Soup.node.
(** The bracketed-netloc check of [urlsplit]. *)
Variable bracketed_ok : string -> bool.

(** [session.get(url, timeout=...)] *)
Definition session_get (c : client) (url : string) (timeout_ms : N)
  : M (Z * string) :=
  fun t =>
    match http_get t c url with
    | Response st body => (Ok (st, body), (t ++ [EvGet c url timeout_ms])%list)
    | Failure e => (Raise e, (t ++ [EvGet c url timeout_ms])%list)
    end.

(** [time.sleep] *)
Definition sleep (ms : N) : M unit := emit (EvSleep ms).

(** [r.raise_for_status()] *)
Definition raise_for_status (st : Z) : M unit :=
  if ((400 <=? st) && (st <? 600))%Z then raise (HTTPError st)
  else ret tt.

(** ** Domain selection helpers *)

(** One turn of the loop of [_pick_live_base]: [Some base] when it
    returns [base], [None] when it goes on to the next candidate. *)
Definition probe_one (base : string) : M (option string) :=
  catch
    (r <- session_get Requests base 10000 ;;
     if (fst r <? 500)%Z
     then ret (Some (Str.rstrip_slash base))
     else ret None)
    (fun _ => ret None).

(** The loop: [None] when it runs to its end. *)
Fixpoint probe (pool : list string) : M (option string) :=
  match pool with
  | [] => ret None
  | base :: rest =>
      found <- probe_one base ;;
      match found with
      | Some b => ret (Some b)
      | None => probe rest
      end
  end.

Definition _pick_live_base : M string :=
  found <- probe HIANIME_DOMAIN_POOL ;;
  match found with
  | Some base => ret base
  | None =>
      match HIANIME_DOMAIN_POOL with
      | first :: _ => ret (Str.rstrip_slash first)
      | [] => raise IndexError
      end
  end.

Definition _base_of (url : string) : M string :=
  match Url.urlparse bracketed_ok url "" with
  | Some p =>
      if Str.truthy (Url.scheme p) && Str.truthy (Url.netloc p)
      then ret (Url.scheme p ++ "://" ++ Url.netloc p)
      else _pick_live_base
  | None => _pick_live_base
  end.

Definition _abs (base maybe_rel : string) : result string :=
  match Url.urljoin bracketed_ok (base ++ "/") maybe_rel with
  | Some u => Ok u
  | None => Raise ValueError
  end.

(** ** Playwright-rendered fetch *)
Definition _rendered_html (url : string) : M string :=
  fun t => (browser t url, (t ++ [EvRender url])%list).


(** ** 1) Search *)

(** [a.get("title") or a.get_text(strip=True) or "Unknown"] *)
Definition title_of (a : Soup.node) : string :=
  let text := Soup.get_text "" a in
  let fallback := if Str.truthy text then text else "Unknown" in
  match Soup.get a "title" with
  | Some t => if Str.truthy t then t else fallback
  | None => fallback
  end.

(** The loop over the poster links. *)
Fixpoint search_loop (base : string) (anchors : list Soup.node)
         (results : list (string * string * string))
  : result (list (string * string * string)) :=
  match anchors with
  | [] => Ok results
  | a :: rest =>
      let rel_link := Str.strip (Soup.get_default a "href" "") in
      if Str.is_empty rel_link then search_loop base rest results
      else
        match _abs base rel_link with
        | Raise e => Raise e
        | Ok anime_url =>
            search_loop base rest
              (results ++ [(title_of a, anime_url, anime_url)])%list
        end
  end.

(** [search_anime] from the parsed page on. *)
Definition parse_search (base : string) (soup : Soup.node)
  : result (list (string * string * string)) :=
  let root := ([], soup) in
  let container :=
    match Soup.find "div" "film-list-wrap" root with
    | Some c => c
    | None => root
    end in
  search_loop base
    (map snd (Soup.select sel_film_poster_links container)) [].

Definition search_anime (query : string)
  : M (list (string * string * string)) :=
  base <- _pick_live_base ;;
  let url := base ++ "/search?keyword=" ++ Url.quote_plus query in
  html <- _rendered_html url ;;
  lift (parse_search base (BeautifulSoup html)).

(** ** 2) Episode list *)

(** The loop over the container selectors. *)
Fixpoint container_loop (sels : list Soup.selector)
         (root : list Soup.node * Soup.node)
         (candidates : list (list Soup.node * Soup.node))
  : list (list Soup.node * Soup.node) :=
  match sels with
  | [] => candidates
  | container_sel :: rest =>
      match Soup.select_one container_sel root with
      | Some container =>
          let candidates := Soup.select sel_links container in
          match candidates with
          | _ :: _ => candidates
          | [] => container_loop rest root candidates
          end
      | None => container_loop rest root candidates
      end
  end.

(** The episode number of a link, from its text and its [href]. *)
Definition episode_number (text href : string) : string :=
  let fallback :=
    match Re.group1 (Re.search true re_episode_href href) with
    | Some n => n
    | None => "?"
    end in
  match Re.group1 (Re.search true re_episode_text text) with
  | Some n => if Str.truthy n then n else fallback
  | None => fallback
  end.

(** The loop over the candidate links. *)
Fixpoint episodes_loop (base : string) (candidates : list Soup.node)
         (episodes : list (string * string))
  : result (list (string * string)) :=
  match candidates with
  | [] => Ok episodes
  | a :: rest =>
      let href := Str.strip (Soup.get_default a "href" "") in
      if Str.is_empty href then episodes_loop base rest episodes
      else
        match _abs base href with
        | Raise e => Raise e
        | Ok ep_url =>
            let text := Soup.get_text " " a in
            episodes_loop base rest
              (episodes ++ [(episode_number text href, ep_url)])%list
        end
  end.

(** [get_episodes_list] from the parsed page on. *)
Definition parse_episodes (base : string) (soup : Soup.node)
  : result (list (string * string)) :=
  let root := ([], soup) in
  let candidates := container_loop container_selectors root [] in
  let candidates :=
    match candidates with
    | [] => Soup.select sel_episode_links root
    | _ :: _ => candidates
    end in
  match episodes_loop base (map snd candidates) [] with
  | Raise e => Raise e
  | Ok episodes => Ok (dedup_sort episodes)
  end.

Definition get_episodes_list (anime_url : string)
  : M (list (string * string)) :=
  base <- _base_of anime_url ;;
  html <- _rendered_html anime_url ;;
  lift (parse_episodes base (BeautifulSoup html)).

(** ** 3) Extract HD-2 + English sub *)

(** The body of the [try] of [_get_with_retries]: [None] when it
    reaches [continue], [Some text] when it returns. *)
Definition attempt (url : string) : M (option string) :=
  r <- session_get Cloudscraper url HTTP_TIMEOUT ;;
  if (fst r >=? 500)%Z
  then sleep 600 ;;; ret None
  else raise_for_status (fst r) ;;; ret (Some (snd r)).

(** The loop, with [n] turns left and the variable [last]. *)
Fixpoint retry_loop (n : nat) (last : option exn) (url : string)
  : M string :=
  match n with
  | O => raise_value last
  | S n' =>
      step <- catch
                (r <- attempt url ;; ret (r, last))
                (fun e => sleep 400 ;;; ret (None, Some e)) ;;
      match fst step with
      | Some text => ret text
      | None => retry_loop n' (snd step) url
      end
  end.

(** [range(RETRIES + 1)] has [RETRIES + 1] elements, none when that is
    negative. *)
Definition _get_with_retries (url : string) : M string :=
  retry_loop (Z.to_nat (RETRIES + 1)) None url.

(** The two searches of [extract_episode_stream_and_subtitle]. *)
Definition find_hls (html : string) : option string :=
  Re.group1 (Re.search true re_hls html).

Definition find_sub (html : string) : option string :=
  match Re.search true re_sub_code html with
  | Some g => g
  | None => Re.group1 (Re.search true re_sub_name html)
  end.

Definition extract_episode_stream_and_subtitle (episode_url : string)
  : M (option string * option string) :=
  html <- _get_with_retries episode_url ;;
  let hls_url := find_hls html in
  let sub_url := find_sub html in
  ret (hls_url, sub_url).

End Env.

End Scraper.

(** ** [config.py] *)
Module Config.

Definition HIANIME_DOMAIN_POOL : list string :=
  ["https://hianimez.is";
   "https://hianimez.to";
   "https://hianime.is";
   "https://hianime.bz";
   "https://hianimez.bz"].

(** The defaults of [HTTP_TIMEOUT] (20 seconds) and [HTTP_RETRIES]. *)
Definition HTTP_TIMEOUT : N := 20000.
Definition RETRIES : Z := 2.

End Config.

(* ------------------------------------------------------------------ *)
(** * The callers: [bot.py] and [set_webhook.py] *)
(* ------------------------------------------------------------------ *)

Module Bot.
Import Eff.

(** [s.split(sep, maxsplit)] for a separator of one character. *)
Fixpoint split_max (sep : ascii) (maxsplit : nat) (s : string)
  : list string :=
  match maxsplit with
  | O => [s]
  | S m =>
      match Str.split_once sep s with
      | Some (l, r) => l :: split_max sep m r
      | None => [s]
      end
  end.

(** The callback data of a search result's button
    ([search_command]): [f"anime|{anime_url}"]. *)
Definition anime_data (anime_url : string) : string :=
  "anime|" ++ anime_url.

(** The label and the callback data of an episode's button
    ([anime_callback]): [f"Ep {ep_num}"], [f"ep|{ep_num}|{ep_url}"]. *)
Definition episode_label (ep_num : string) : string := "Ep " ++ ep_num.

Definition episode_data (ep_num ep_url : string) : string :=
  "ep|" ++ ep_num ++ "|" ++ ep_url.

(** [_, anime_url = query.data.split("|", 1)] in [anime_callback]: the
    unpacking raises [ValueError] unless the list has two elements. *)
Definition parse_anime_data (data : string) : result string :=
  match split_max "|" 1 data with
  | [_; anime_url] => Ok anime_url
  | _ => Raise ValueError
  end.

(** [_, ep_num, ep_url = query.data.split("|", 2)] in
    [episode_callback]. *)
Definition parse_episode_data (data : string) : result (string * string) :=
  match split_max "|" 2 data with
  | [_; ep_num; ep_url] => Ok (ep_num, ep_url)
  | _ => Raise ValueError
  end.

Inductive handler : Type := anime_callback | episode_callback.

(** The two [CallbackQueryHandler]s, in the order of their registration:
    their patterns [^anime\|] and [^ep\|] are tried with [re.match], that
    is at the start of the data, and the first that matches handles the
    query. *)
Definition route (data : string) : option handler :=
  match Re.match_at false (Re.Lit "anime|") data with
  | Some _ => Some anime_callback
  | None =>
      match Re.match_at false (Re.Lit "ep|") data with
      | Some _ => Some episode_callback
      | None => None
      end
  end.

(** [x or y] on two values of [os.getenv]. *)
Definition getenv_or (x y : option string) : option string :=
  match x with
  | Some s => if Str.truthy s then x else y
  | None => y
  end.

(** [not x] on a value of [os.getenv]. *)
Definition unset (x : option string) : bool :=
  match x with
  | Some s => Str.is_empty s
  | None => true
  end.

(** [set_webhook.py]: the URL the webhook is set to, or [None] when the
    script exits with status 1. *)
Definition set_webhook_url (TELEGRAM_TOKEN APP_URL_env KOYEB_APP_URL
                            : option string) : option string :=
  let APP_URL := getenv_or APP_URL_env KOYEB_APP_URL in
  if unset TELEGRAM_TOKEN || unset APP_URL then None
  else
    match APP_URL with
    | Some app => Some (Str.rstrip_slash app ++ "/webhook")
    | None => None
    end.

End Bot.

(* ------------------------------------------------------------------ *)
(** * Vocabulary of the statements *)
(* ------------------------------------------------------------------ *)

Module Spec.
Import Eff.

(** The requests [_pick_live_base] sends when it probes the candidates
    [pool] one after the other. *)
Definition probes (pool : list string) : trace :=
  map (fun base => EvGet Requests base 10000) pool.

(** The candidate [base] answers, with a status below 500, the probe sent
    after the history [t]. *)
Definition alive (http_get : trace -> client -> string -> response)
           (t : trace) (base : string) : bool :=
  match http_get t Requests base with
  | Response st _ => (st <? 500)%Z
  | Failure _ => false
  end.

(** The trace of [n] turns of the loop of [_get_with_retries] that all met
    a status of 500 or more. *)
Fixpoint backoffs (timeout_ms : N) (url : string) (n : nat) : trace :=
  match n with
  | O => []
  | S n' =>
      EvGet Cloudscraper url timeout_ms :: EvSleep 600
      :: backoffs timeout_ms url n'
  end.

(** Equality of two texts, up to the case of ASCII letters when [ic] is
    set. *)
Definition text_eq (ic : bool) (a b : string) : Prop :=
  if ic then Str.lower a = Str.lower b else a = b.

(** What a pattern denotes: [denotes ic r m cap cap'] when [r] matches
    exactly the text [m] and turns the value [cap] of group 1 into
    [cap']. *)
Fixpoint denotes (ic : bool) (r : Re.regex) (m : string)
         (cap cap' : option string) : Prop :=
  match r with
  | Re.Lit p => text_eq ic p m /\ cap' = cap
  | Re.Many0 p => Str.forallb p m = true /\ cap' = cap
  | Re.Many1 p => m <> "" /\ Str.forallb p m = true /\ cap' = cap
  | Re.Opt p =>
      (m = "" \/ exists c, m = String c "" /\ p c = true) /\ cap' = cap
  | Re.Seq r1 r2 =>
      exists m1 m2 c1,
        m = m1 ++ m2 /\ denotes ic r1 m1 cap c1 /\ denotes ic r2 m2 c1 cap'
  | Re.Alt r1 r2 => denotes ic r1 m cap cap' \/ denotes ic r2 m cap cap'
  | Re.Group r1 => (exists c, denotes ic r1 m cap c) /\ cap' = Some m
  end.

(** The pattern [r] matches somewhere in [s]: at the text [m], after
    [pre]. *)
Definition occurs (ic : bool) (r : Re.regex) (s pre m : string)
           (g : option string) : Prop :=
  (exists post, s = pre ++ m ++ post) /\ denotes ic r m None g.

(** ** The fragments the extraction patterns describe *)

Definition Q : string := String Str.dquote "".

Definition all_ws (w : string) : Prop := Str.forallb Str.isspace w = true.

Definition quote_free (u : string) : Prop :=
  Str.forallb Re.not_quote u = true.

(** Equality up to the case of ASCII letters. *)
Definition caseless (a b : string) : Prop := Str.lower a = Str.lower b.

(** [frag] is a fragment
    ['name' : 'value' , 'key' : 'u']
    (an apostrophe standing for a double quote), with optional white space
    around the colons and the comma, where the name is [name] up to case,
    the value satisfies [value_ok], the key is one of [keys] up to case,
    and [u] is a non-empty text without a double quote followed by one of
    the extensions [exts], up to case. *)
Definition fragment (name : string) (value_ok : string -> Prop)
           (keys exts : list string) (frag u : string) : Prop :=
  exists nm w1 w2 value w3 w4 key w5 w6 stem ext,
    frag = Q ++ nm ++ Q ++ w1 ++ ":" ++ w2 ++ Q ++ value ++ Q
             ++ w3 ++ "," ++ w4 ++ Q ++ key ++ Q ++ w5 ++ ":" ++ w6
             ++ Q ++ u ++ Q
    /\ caseless nm name
    /\ value_ok value
    /\ (exists k, In k keys /\ caseless key k)
    /\ (all_ws w1 /\ all_ws w2 /\ all_ws w3
        /\ all_ws w4 /\ all_ws w5 /\ all_ws w6)
    /\ u = stem ++ ext /\ stem <> "" /\ quote_free stem
    /\ (exists e, In e exts /\ caseless ext e).

(** The stream entry: label [HD-2], key [file] or [url], a playlist. *)
Definition hls_fragment : string -> string -> Prop :=
  fragment "label" (fun v => caseless v "HD-2") ["file"; "url"] [".m3u8"].

(** The subtitle entry found by its language code. *)
Definition sub_code_fragment : string -> string -> Prop :=
  fragment "srclang" (fun v => caseless v "en")
    ["file"; "url"; "src"] [".vtt"; ".srt"].

(** The subtitle entry found by its language name. *)
Definition sub_name_fragment : string -> string -> Prop :=
  fragment "lang"
    (fun v => exists e rest,
         v = e ++ rest /\ caseless e "English" /\ quote_free rest)
    ["file"; "url"; "src"] [".vtt"; ".srt"].

(** [frag], with the URL [u], occurs in [html] after [pre]. *)
Definition found_at (F : string -> string -> Prop)
           (html pre frag u : string) : Prop :=
  (exists post, html = pre ++ frag ++ post) /\ F frag u.

(** [u] is the URL of the first fragment of [html]: no fragment starts
    before it. *)
Definition first_fragment (F : string -> string -> Prop)
           (html u : string) : Prop :=
  exists pre frag,
    found_at F html pre frag u
    /\ forall pre' frag' u',
        found_at F html pre' frag' u' ->
        String.length pre <= String.length pre'.

(** [html] holds no fragment. *)
Definition no_fragment (F : string -> string -> Prop) (html : string)
  : Prop :=
  forall pre frag u, ~ found_at F html pre frag u.

(** A text begins with at most one fragment, as far as its URL goes. *)
Definition prefix_determined (F : string -> string -> Prop) : Prop :=
  forall frag u post frag' u' post',
    F frag u -> F frag' u' -> frag ++ post = frag' ++ post' -> u = u'.

(** ** URLs written out *)

(** A scheme as [urlsplit] accepts one: a letter, then letters, digits,
    [+], [-] and [.]. *)
Definition scheme_ok (sch : string) : bool :=
  match sch with
  | String c _ => Str.is_ascii_alpha c && Str.forallb Url.scheme_char sch
  | EmptyString => false
  end.

(** A scheme of both [uses_relative] and [uses_netloc], such as [http]
    and [https]. *)
Definition known_scheme (sch : string) : bool :=
  Str.truthy sch && Url.in_list sch Url.uses_relative
  && Url.in_list sch Url.uses_netloc.

(** Tab, line feed and carriage return, which [urlsplit] deletes. *)
Definition unsafe_char (c : ascii) : bool :=
  (c =? "009")%char || (c =? "010")%char || (c =? "013")%char.

(** A character of an authority (userinfo, host and port): not a
    delimiter of the netloc, not deleted, not a bracket. *)
Definition authority_char (c : ascii) : bool :=
  negb (Url.netloc_delim c) && negb (unsafe_char c)
  && negb (c =? "[")%char && negb (c =? "]")%char.

Definition authority_ok (auth : string) : bool :=
  Str.truthy auth && Str.forallb authority_char auth.

(** What may follow the authority: nothing, or a path, query or fragment
    together with its delimiter. *)
Definition tail_ok (rest : string) : bool :=
  match rest with
  | EmptyString => true
  | String c _ => Url.netloc_delim c
  end.

(** A character of an ordinary path: printable, and none of [: ? # ;]. *)
Definition path_char (c : ascii) : bool :=
  negb (c <=? " ")%char && negb (c =? ":")%char && negb (c =? "?")%char
  && negb (c =? "#")%char && negb (c =? ";")%char.

Definition not_dots (seg : string) : bool :=
  negb (seg =? ".")%string && negb (seg =? "..")%string.

(** Segments none of which is [.] or [..], and none empty but perhaps
    the last. *)
Fixpoint segments_ok (segs : list string) : bool :=
  match segs with
  | [] => true
  | [seg] => not_dots seg
  | seg :: rest => Str.truthy seg && not_dots seg && segments_ok rest
  end.

(** An ordinary path: [a/b/c] or [a/b/], with no leading slash. *)
Definition path_ok (p : string) : bool :=
  Str.forallb path_char p && segments_ok (Str.split "/" p).

(** The order [sorted] sorts by. *)
Definition key_le {A} (key : A -> N * string) (x y : A) : Prop :=
  Scraper.key_leb (key x) (key y) = true.

(** [x] comes before [y] in [l]. *)
Definition before {A} (x y : A) (l : list A) : Prop :=
  exists l1 l2 l3, l = (l1 ++ x :: l2 ++ y :: l3)%list.

End Spec.

(* ------------------------------------------------------------------ *)
(** * Sample pages and environments *)
(* ------------------------------------------------------------------ *)

Module Examples.
Import Eff.

(** A network on which every request fails. *)
Definition offline : trace -> client -> string -> response :=
  fun _ _ _ => Failure (RequestException "offline").

(** A browser that always ends up with the markup [html]. *)
Definition shows (html : string) : trace -> string -> result string :=
  fun _ _ => Ok html.

(** A parser that reads the document [soup] from that markup. *)
Definition reads (soup : Soup.node) : string -> Soup.node :=
  fun _ => soup.

(** A server that answers every request with [status] and [body]. *)
Definition serves (status : Z) (body : string)
  : trace -> client -> string -> response :=
  fun _ _ _ => Response status body.

(** The player configuration of an episode page: two streams and two
    subtitle tracks. *)
Definition player_page : string :=
  Str.dq ("sources: [{'label':'HD-1','file':'https://cdn/a.m3u8'}," ++
          "{'label':'HD-2','file':'https://cdn/x.m3u8','type':'hls'}], " ++
          "tracks: [{'lang':'French','url':'https://cdn/fr.vtt'}," ++
          "{'srclang':'en','file':'https://cdn/en.vtt'}]").

Definition any_bracketed : string -> bool := fun _ => true.

Definition document (contents : list Soup.node) : Soup.node :=
  Soup.Tag "[document]" [] contents.

Definition link (href text : string) : Soup.node :=
  Soup.Tag "a" [("href", href)] [Soup.NavigableString text].

(** An episode list with a preview link and a very large episode number. *)
Definition page_large_number : Soup.node :=
  document
    [Soup.Tag "ul" [("class", "episodes")]
       [link "/watch/a" "Preview";
        link "/watch/b" "Episode 2000000000"]].

(** An episode list whose first episode is numbered zero. *)
Definition page_episode_zero : Soup.node :=
  document
    [Soup.Tag "div" [("id", "episodes")]
       [link "/watch/pilot" "Episode 0";
        link "/watch/first" "Episode 1"]].

(** A search page with two posters. *)
Definition page_search : Soup.node :=
  document
    [Soup.Tag "div" [("class", "film-list-wrap")]
       [Soup.Tag "div" [("class", "film-poster")]
          [Soup.Tag "a" [("href", "/one-piece-100"); ("title", "One Piece")]
             []];
        Soup.Tag "div" [("class", "film-poster")]
          [link "/naruto-677" " Naruto "]]].

End Examples.

Unset Implicit Arguments.

(* ------------------------------------------------------------------ *)
(** * Domain selection *)
(* ------------------------------------------------------------------ *)

Module DomainFacts.
Import Eff Scraper Spec.
Local Open Scope list_scope.

Section WithEnv.
Variable http_get : trace -> client -> string -> response.
Variable bracketed_ok : string -> bool.

Lemma probe_one_run (base : string) (t : trace) :
  probe_one http_get base t =
  (Ok (if alive http_get t base then Some (Str.rstrip_slash base) else None),
   (t ++ probes [base])%list).
Proof.
  unfold probe_one, catch, bind, session_get, alive, probes, ret. simpl.
  destruct (http_get t Requests base) as [st body | e]; simpl; [|reflexivity].
  destruct (st <? 500)%Z; reflexivity.
Qed.

Lemma probes_app (l1 l2 : list string) :
  probes (l1 ++ l2) = (probes l1 ++ probes l2)%list.
Proof. unfold probes. apply map_app. Qed.

Lemma probe_cons (base : string) (rest : list string) (t : trace) :
  probe http_get (base :: rest) t =
  if alive http_get t base
  then (Ok (Some (Str.rstrip_slash base)), t ++ probes [base])
  else probe http_get rest (t ++ probes [base]).
Proof.
  simpl. unfold bind. rewrite probe_one_run.
  destruct (alive http_get t base); reflexivity.
Qed.

(** The loop either returns the first candidate that answers, having
    probed the candidates up to it, or runs through the whole pool. *)
Lemma probe_run (pool : list string) : forall t : trace,
  (exists pre b post,
      pool = (pre ++ b :: post)%list
      /\ alive http_get (t ++ probes pre) b = true
      /\ (forall pre' b' post',
             pool = (pre' ++ b' :: post')%list ->
             List.length pre' < List.length pre ->
             alive http_get (t ++ probes pre') b' = false)
      /\ probe http_get pool t =
         (Ok (Some (Str.rstrip_slash b)), (t ++ probes (pre ++ [b]))%list))
  \/ ((forall pre' b' post',
          pool = (pre' ++ b' :: post')%list ->
          alive http_get (t ++ probes pre') b' = false)
      /\ probe http_get pool t = (Ok None, (t ++ probes pool)%list)).
Proof.
  induction pool as [| base rest IH]; intros t.
  - right. split.
    + intros [|? ?] ? ? H; discriminate H.
    + simpl. unfold ret. now rewrite app_nil_r.
  - rewrite probe_cons.
    destruct (alive http_get t base) eqn:Hb.
    + left. exists [], base, rest. simpl. rewrite app_nil_r.
      repeat split; auto.
      intros ? ? ? _ Hlt. inversion Hlt.
    +           destruct (IH (t ++ probes [base])) as
        [(pre & b & post & Hp & Ha & Hmin & Hrun) | (Hnone & Hrun)].
      * left. exists (base :: pre), b, post.
        split; [now rewrite Hp|].
        split; [simpl; now rewrite <- app_assoc in Ha|].
        split.
        -- intros [| x pre'] b' post' Heq Hlt; simpl in *.
           ++ injection Heq as <- _. now rewrite app_nil_r.
           ++ injection Heq as <- Heq.
              specialize (Hmin pre' b' post' Heq).
              rewrite <- app_assoc in Hmin. apply Hmin. lia.
        -- rewrite Hrun. simpl. now rewrite <- app_assoc.
      * right. split.
        -- intros [| x pre'] b' post' Heq; simpl in *.
           ++ injection Heq as <- _. now rewrite app_nil_r.
           ++ injection Heq as <- Heq.
              specialize (Hnone pre' b' post' Heq).
              now rewrite <- app_assoc in Hnone.
        -- rewrite Hrun. now rewrite <- app_assoc.
Qed.

Lemma rstrip_slash_config :
  forall b, In b Config.HIANIME_DOMAIN_POOL -> Str.rstrip_slash b = b.
Proof.
  intros b Hb. simpl in Hb.
  repeat (destruct Hb as [<- | Hb]; [reflexivity|]). destruct Hb.
Qed.

(** C6, as amended: on a pool that is not empty [_pick_live_base]
    probes the candidates in order and returns, with its trailing
    slashes removed, the first one whose response has a status below
    500, or the first entry when none has; it never raises. Its result
    is a member of the pool once trailing slashes are removed from the
    pool's entries, hence a member of the pool when no entry ends in a
    slash. *)
Theorem pick_live_base_spec (first : string) (rest : list string)
        (t : trace) :
  let pool := first :: rest in
  let run := _pick_live_base pool http_get t in
  ((exists pre b post,
       pool = pre ++ b :: post
       /\ alive http_get (t ++ probes pre) b = true
       /\ (forall pre' b' post',
              pool = pre' ++ b' :: post' ->
              List.length pre' < List.length pre ->
              alive http_get (t ++ probes pre') b' = false)
       /\ run = (Ok (Str.rstrip_slash b), t ++ probes (pre ++ [b])))
   \/ ((forall pre' b' post',
           pool = pre' ++ b' :: post' ->
           alive http_get (t ++ probes pre') b' = false)
       /\ run = (Ok (Str.rstrip_slash first), t ++ probes pool)))
  /\ (exists b, In b pool /\ fst run = Ok (Str.rstrip_slash b))
  /\ ((forall b, In b pool -> Str.rstrip_slash b = b) ->
      exists b, In b pool /\ fst run = Ok b).
Proof.
  intros pool run.
  assert (Hmain :
    (exists pre b post,
       pool = pre ++ b :: post
       /\ alive http_get (t ++ probes pre) b = true
       /\ (forall pre' b' post',
              pool = pre' ++ b' :: post' ->
              List.length pre' < List.length pre ->
              alive http_get (t ++ probes pre') b' = false)
       /\ run = (Ok (Str.rstrip_slash b), t ++ probes (pre ++ [b])))
    \/ ((forall pre' b' post',
           pool = pre' ++ b' :: post' ->
           alive http_get (t ++ probes pre') b' = false)
       /\ run = (Ok (Str.rstrip_slash first), t ++ probes pool))).
  { subst run. unfold _pick_live_base, bind.
    destruct (probe_run pool t) as
      [(pre & b & post & Hp & Ha & Hmin & Hrun) | (Hnone & Hrun)].
    - left. exists pre, b, post. rewrite Hrun. auto.
    - right. rewrite Hrun. auto. }
  assert (Hmem : exists b, In b pool /\ fst run = Ok (Str.rstrip_slash b)).
  { destruct Hmain as
      [(pre & b & post & Hp & _ & _ & Hrun) | (_ & Hrun)].
    - exists b. rewrite Hrun, Hp. split; [|reflexivity].
      apply in_or_app. right. now left.
    - exists first. rewrite Hrun. split; [now left | reflexivity]. }
  split; [exact Hmain|]. split; [exact Hmem|].
  intros Hclean. destruct Hmem as (b & Hin & Hrun).
  exists b. split; [exact Hin|]. now rewrite Hrun, (Hclean b Hin).
Qed.



End WithEnv.


Lemma pick_live_base_spec_witness :
  exists b, In b Config.HIANIME_DOMAIN_POOL
            /\ fst (_pick_live_base Config.HIANIME_DOMAIN_POOL
                      (fun _ _ _ => Failure (RequestException "down")) [])
               = Ok b.
Proof.
  exact (proj2 (proj2 (pick_live_base_spec
                         (fun _ _ _ => Failure (RequestException "down"))
                         "https://hianimez.is"
                         ["https://hianimez.to"; "https://hianime.is";
                          "https://hianime.bz"; "https://hianimez.bz"] []))
               rstrip_slash_config).
Defined.

(** C6, as stated, fails on a pool whose entry ends in a slash: the
    entry answers, and what is returned is not in the pool. *)
Lemma pick_live_base_outside_pool :
  let pool := ["https://a.example/"%string] in
  fst (_pick_live_base pool (fun _ _ _ => Response 200 "") [])
  = Ok "https://a.example"%string
  /\ ~ In "https://a.example"%string pool.
Proof.
  split; [reflexivity|]. intros [H | []]. discriminate H.
Qed.

End DomainFacts.

(* ------------------------------------------------------------------ *)
(** * The fetch with retries *)
(* ------------------------------------------------------------------ *)

Module RetryFacts.
Import Eff Scraper Spec.
Local Open Scope list_scope.

Section WithEnv.
Variable HTTP_TIMEOUT : N.
Variable http_get : trace -> client -> string -> response.

Let get (url : string) : event := EvGet Cloudscraper url HTTP_TIMEOUT.

(** What one turn of the loop does, by the answer of the network. *)
Lemma attempt_run (url : string) (t : trace) :
  attempt HTTP_TIMEOUT http_get url t =
  match http_get t Cloudscraper url with
  | Response st body =>
      if (st >=? 500)%Z then (Ok None, t ++ [get url; EvSleep 600])
      else if ((400 <=? st) && (st <? 600))%Z
           then (Raise (HTTPError st), t ++ [get url])
           else (Ok (Some body), t ++ [get url])
  | Failure e => (Raise e, t ++ [get url])
  end.
Proof.
  unfold attempt, bind, session_get, sleep, emit, raise_for_status, ret,
    raise.
  destruct (http_get t Cloudscraper url) as [st body | e]; simpl;
    [|reflexivity].
  destruct (st >=? 500)%Z; simpl.
  - now rewrite <- app_assoc.
  - destruct ((400 <=? st) && (st <? 600))%Z; reflexivity.
Qed.

Lemma requests_app (t1 t2 : trace) :
  requests (t1 ++ t2) = requests t1 + requests t2.
Proof. unfold requests. now rewrite filter_app, length_app. Qed.

(** One more turn of the loop. *)
Lemma retry_loop_S (n : nat) (last : option exn) (url : string)
      (t : trace) :
  retry_loop HTTP_TIMEOUT http_get (S n) last url t =
  match http_get t Cloudscraper url with
  | Response st body =>
      if (st >=? 500)%Z
      then retry_loop HTTP_TIMEOUT http_get n last url
             (t ++ [get url; EvSleep 600])
      else if ((400 <=? st) && (st <? 600))%Z
           then retry_loop HTTP_TIMEOUT http_get n (Some (HTTPError st))
                  url (t ++ [get url; EvSleep 400])
           else (Ok body, t ++ [get url])
  | Failure e =>
      retry_loop HTTP_TIMEOUT http_get n (Some e) url
        (t ++ [get url; EvSleep 400])
  end.
Proof.
  simpl. unfold bind at 1. unfold catch. unfold bind at 1.
  rewrite attempt_run.
  destruct (http_get t Cloudscraper url) as [st body | e].
  - destruct (st >=? 500)%Z; [reflexivity|].
    destruct ((400 <=? st) && (st <? 600))%Z; [|reflexivity].
    unfold bind, sleep, emit, ret. simpl. now rewrite <- app_assoc.
  - unfold bind, sleep, emit, ret. simpl. now rewrite <- app_assoc.
Qed.

(** At most [n] requests in [n] turns. *)
Lemma retry_loop_requests (n : nat) : forall last url t,
  requests (snd (retry_loop HTTP_TIMEOUT http_get n last url t))
  <= requests t + n.
Proof.
  induction n as [| n IH]; intros last url t.
  - destruct last; unfold raise_value, raise; simpl; lia.
  - rewrite retry_loop_S.
    destruct (http_get t Cloudscraper url) as [st body | e].
    + destruct (st >=? 500)%Z.
      * eapply Nat.le_trans; [apply IH|].
        rewrite requests_app. unfold get, requests. simpl. lia.
      * destruct ((400 <=? st) && (st <? 600))%Z.
        -- eapply Nat.le_trans; [apply IH|].
           rewrite requests_app. unfold get, requests. simpl. lia.
        -- simpl. rewrite requests_app. unfold get, requests. simpl. lia.
    + eapply Nat.le_trans; [apply IH|].
      rewrite requests_app. unfold get, requests. simpl. lia.
Qed.

(** [_get_with_retries] sends at most [RETRIES + 1] requests (none
    when that number is negative). *)
Lemma get_with_retries_attempts (RETRIES : Z) (url : string) (t : trace) :
  requests (snd (_get_with_retries HTTP_TIMEOUT RETRIES http_get url t))
  <= requests t + Z.to_nat (RETRIES + 1).
Proof. apply retry_loop_requests. Qed.

(** When every answer has a status of 500 or more, the variable [last]
    is never assigned: the loop ends in [raise last] with the value it
    started from. *)
Lemma retry_loop_all_5xx (url : string)
      (H5 : forall t, exists st body,
            http_get t Cloudscraper url = Response st body
            /\ (500 <= st)%Z)
      (n : nat) : forall last t,
  retry_loop HTTP_TIMEOUT http_get n last url t =
  (match last with Some e => Raise e | None => Raise TypeError end,
   t ++ backoffs HTTP_TIMEOUT url n).
Proof.
  induction n as [| n IH]; intros last t.
  - simpl. rewrite app_nil_r. destruct last; reflexivity.
  - rewrite retry_loop_S.
    destruct (H5 t) as (st & body & -> & Hst).
    destruct (Z.geb_spec st 500) as [_ | Hlt]; [|lia].
    rewrite IH. simpl. now rewrite <- app_assoc.
Qed.

(** A 503 followed by a 200: the body of the 200 is returned. *)
Lemma retry_503_then_200 (n : nat) (last : option exn) (url body : string)
      (t : trace) b503 :
  http_get t Cloudscraper url = Response 503 b503 ->
  http_get (t ++ [get url; EvSleep 600]) Cloudscraper url
  = Response 200 body ->
  retry_loop HTTP_TIMEOUT http_get (S (S n)) last url t =
  (Ok body, t ++ [get url; EvSleep 600; get url]).
Proof.
  intros H1 H2. rewrite retry_loop_S, H1.
  change (503 >=? 500)%Z with true. cbv iota.
  rewrite retry_loop_S, H2. simpl. now rewrite <- app_assoc.
Qed.

End WithEnv.

(** C1, where the code departs from it: when every attempt is answered
    with a status of 500 or more, the attempts and their backoffs of 0.6 s
    take place, the variable [last] is never assigned, and the call ends in
    [raise None], which is a [TypeError]: no error met on the way is
    raised. *)
Theorem get_with_retries_all_5xx (HTTP_TIMEOUT : N) (RETRIES : Z)
        (http_get : trace -> client -> string -> response)
        (url : string) (t : trace) :
  (forall t', exists st body,
      http_get t' Cloudscraper url = Response st body /\ (500 <= st)%Z) ->
  _get_with_retries HTTP_TIMEOUT RETRIES http_get url t
  = (Raise TypeError,
     t ++ backoffs HTTP_TIMEOUT url (Z.to_nat (RETRIES + 1))).
Proof.
  intros H5. unfold _get_with_retries.
  now rewrite (retry_loop_all_5xx HTTP_TIMEOUT http_get url H5).
Qed.

(** The failing run with the defaults of [config.py] and a server that
    answers 503 to every request. *)
Lemma get_with_retries_all_503 :
  _get_with_retries Config.HTTP_TIMEOUT Config.RETRIES
    (fun _ _ _ => Response 503 "Service Unavailable")
    "https://hianimez.is/watch/x" []
  = (Raise TypeError,
     [EvGet Cloudscraper "https://hianimez.is/watch/x" 20000; EvSleep 600;
      EvGet Cloudscraper "https://hianimez.is/watch/x" 20000; EvSleep 600;
      EvGet Cloudscraper "https://hianimez.is/watch/x" 20000; EvSleep 600]).
Proof.
  apply (get_with_retries_all_5xx Config.HTTP_TIMEOUT Config.RETRIES
           (fun _ _ _ => Response 503 "Service Unavailable")
           "https://hianimez.is/watch/x" []).
  intros t'. exists 503%Z, "Service Unavailable"%string.
  split; [reflexivity | lia].
Defined.

End RetryFacts.

(* ------------------------------------------------------------------ *)
(** * Facts about strings *)
(* ------------------------------------------------------------------ *)

Module StrFacts.

Lemma app_nil_r (s : string) : s ++ "" = s.
Proof. induction s as [| c s IH]; simpl; congruence. Qed.

Lemma app_assoc (a b c : string) : (a ++ b) ++ c = a ++ (b ++ c).
Proof. induction a as [| x a IH]; simpl; congruence. Qed.

Lemma length_app (a b : string) :
  String.length (a ++ b) = String.length a + String.length b.
Proof. induction a as [| x a IH]; simpl; congruence. Qed.

Lemma take_app (a b : string) : Str.take (String.length a) (a ++ b) = a.
Proof. induction a as [| x a IH]; simpl; [now destruct b | congruence]. Qed.

Lemma drop_app (a b : string) : Str.drop (String.length a) (a ++ b) = b.
Proof. induction a as [| x a IH]; simpl; [now destruct b | congruence]. Qed.

Lemma app_inv_head (a b c : string) : a ++ b = a ++ c -> b = c.
Proof.
  induction a as [| x a IH]; simpl; intros H; [exact H|].
  injection H as H. auto.
Qed.

(** Of two prefixes of one text, of the same length, each is the other. *)
Lemma app_eq_length (a b c d : string) :
  a ++ b = c ++ d -> String.length a = String.length c ->
  a = c /\ b = d.
Proof.
  revert c. induction a as [| x a IH]; intros [| y c]; simpl;
    intros H L; try discriminate L.
  - auto.
  - injection H as -> H. injection L as L.
    destruct (IH c H L) as [-> ->]. auto.
Qed.

Lemma forallb_app (p : ascii -> bool) (a b : string) :
  Str.forallb p (a ++ b) = Str.forallb p a && Str.forallb p b.
Proof.
  induction a as [| x a IH]; simpl; [reflexivity|].
  now rewrite IH, andb_assoc.
Qed.

Lemma lower_app (a b : string) :
  Str.lower (a ++ b) = Str.lower a ++ Str.lower b.
Proof. induction a as [| x a IH]; simpl; congruence. Qed.

Lemma lower_length (a : string) :
  String.length (Str.lower a) = String.length a.
Proof. induction a as [| x a IH]; simpl; congruence. Qed.

Lemma lower_ascii_idem (c : ascii) :
  Str.lower_ascii (Str.lower_ascii c) = Str.lower_ascii c.
Proof. destruct c as [[] [] [] [] [] [] [] []]; reflexivity. Qed.

Lemma truthy_iff (s : string) : Str.truthy s = true <-> s <> "".
Proof.
  destruct s; cbn; split; intro H;
    first [reflexivity | discriminate | now elim H].
Qed.

Lemma is_empty_iff (s : string) : Str.is_empty s = true <-> s = "".
Proof. destruct s; cbn; split; intro H; first [reflexivity | discriminate]. Qed.

(** ** The order of strings *)

Lemma ascii_compare_refl (c : ascii) : Ascii.compare c c = Eq.
Proof. apply N.compare_refl. Qed.

Lemma compare_refl (s : string) : String.compare s s = Eq.
Proof.
  induction s as [| c s IH]; simpl; [reflexivity|].
  now rewrite ascii_compare_refl.
Qed.

Lemma compare_lt_trans (a : string) : forall b c,
  String.compare a b = Lt -> String.compare b c = Lt ->
  String.compare a c = Lt.
Proof.
  induction a as [| x a IH]; intros [| y b] [| z c]; simpl;
    try congruence.
  unfold Ascii.compare.
  destruct (N.compare_spec (N_of_ascii x) (N_of_ascii y)) as [E1 | L1 | G1];
    destruct (N.compare_spec (N_of_ascii y) (N_of_ascii z)) as [E2 | L2 | G2];
    try congruence; intros H1 H2.
  - rewrite E1, E2, N.compare_refl. eauto.
  - rewrite E1. now apply N.compare_lt_iff in L2 as ->.
  - rewrite <- E2. now apply N.compare_lt_iff in L1 as ->.
  - assert (L : (N_of_ascii x < N_of_ascii z)%N) by lia.
    now apply N.compare_lt_iff in L as ->.
Qed.

Lemma leb_refl (s : string) : String.leb s s = true.
Proof. unfold String.leb. now rewrite compare_refl. Qed.

Lemma leb_trans (a b c : string) :
  String.leb a b = true -> String.leb b c = true -> String.leb a c = true.
Proof.
  unfold String.leb.
  destruct (String.compare a b) eqn:E1; try discriminate;
    destruct (String.compare b c) eqn:E2; try discriminate; intros _ _.
  - apply String.compare_eq_iff in E1, E2. subst.
    now rewrite compare_refl.
  - apply String.compare_eq_iff in E1. subst. now rewrite E2.
  - apply String.compare_eq_iff in E2. subst. now rewrite E1.
  - now rewrite (compare_lt_trans _ _ _ E1 E2).
Qed.

End StrFacts.

(* ------------------------------------------------------------------ *)
(** * The matcher finds what the patterns denote *)
(* ------------------------------------------------------------------ *)

Module ReFacts.
Import Spec StrFacts.

Lemma chr_eq_true (a b : ascii) :
  Re.chr_eq true a b = true <-> Str.lower_ascii a = Str.lower_ascii b.
Proof. apply Ascii.eqb_eq. Qed.

Lemma chr_eq_false (a b : ascii) : Re.chr_eq false a b = true <-> a = b.
Proof. apply Ascii.eqb_eq. Qed.

Lemma lit_spec (ic : bool) (p : string) : forall s rest,
  Re.lit ic p s = Some rest <-> exists m, s = m ++ rest /\ text_eq ic p m.
Proof.
  induction p as [| a p IH]; intros s rest; simpl.
  - split.
    + intros [= ->]. exists "". split; [reflexivity|].
      destruct ic; reflexivity.
    + intros (m & -> & H). destruct m as [| c m].
      * reflexivity.
      * destruct ic; discriminate H.
  - destruct s as [| b s].
    + split; [discriminate|]. intros ([| c m] & Hs & H).
      * destruct ic; discriminate H.
      * discriminate Hs.
    + destruct (Re.chr_eq ic a b) eqn:E.
      * rewrite IH. split.
        -- intros (m & -> & H). exists (String b m). split; [reflexivity|].
           destruct ic; simpl in *.
           ++ apply chr_eq_true in E. congruence.
           ++ apply chr_eq_false in E. congruence.
        -- intros ([| c m] & Hs & H); [destruct ic; discriminate H|].
           injection Hs as <- ->. exists m. split; [reflexivity|].
           destruct ic; simpl in *; congruence.
      * split; [discriminate|].
        intros ([| c m] & Hs & H); [destruct ic; discriminate H|].
        injection Hs as <- ->. exfalso.
        destruct ic; simpl in *.
        -- injection H as H _. apply Ascii.eqb_neq in E. congruence.
        -- injection H as H _. apply Ascii.eqb_neq in E. congruence.
Qed.

Lemma many_spec (p : ascii -> bool) : forall s rest,
  In rest (Re.many p s) <->
  exists m, s = m ++ rest /\ Str.forallb p m = true.
Proof.
  induction s as [| c s IH]; intros rest; simpl.
  - split.
    + intros [<- | []]. now exists "".
    + intros ([| x m] & Hs & _); [left; exact Hs | discriminate Hs].
  - destruct (p c) eqn:E.
    + rewrite in_app_iff, IH. simpl. split.
      * intros [(m & -> & H) | [<- | []]].
        -- exists (String c m). simpl. now rewrite E, H.
        -- now exists "".
      * intros ([| x m] & Hs & H).
        -- right. left. exact Hs.
        -- injection Hs as <- ->. simpl in H.
           apply andb_prop in H as [_ H]. left. now exists m.
    + split.
      * intros [<- | []]. now exists "".
      * intros ([| x m] & Hs & H); [left; exact Hs|].
        injection Hs as <- ->. simpl in H. rewrite E in H. discriminate H.
Qed.

Lemma consumed_app (m rest : string) : Re.consumed (m ++ rest) rest = m.
Proof.
  unfold Re.consumed. rewrite length_app.
  replace (String.length m + String.length rest - String.length rest)
    with (String.length m) by lia.
  apply take_app.
Qed.

(** The matcher is sound and complete for what a pattern denotes. *)
Theorem rmatch_spec (ic : bool) (r : Re.regex) : forall cap s c rest,
  In (c, rest) (Re.rmatch ic r cap s) <->
  exists m, s = m ++ rest /\ denotes ic r m cap c.
Proof.
  induction r as [p | p | p | p | r1 IH1 r2 IH2 | r1 IH1 r2 IH2 | r1 IH1];
    intros cap s c rest; simpl.
  - destruct (Re.lit ic p s) as [rest' |] eqn:E.
    + simpl. split.
      * intros [[= <- <-] | []]. apply lit_spec in E as (m & -> & H).
        now exists m.
      * intros (m & Hs & H & ->). left.
        assert (E' : Re.lit ic p s = Some rest)
          by (apply lit_spec; now exists m).
        congruence.
    + split; [intros []|]. intros (m & Hs & H & ->).
      assert (E' : Re.lit ic p s = Some rest)
        by (apply lit_spec; now exists m).
      congruence.
  - rewrite in_map_iff. split.
    + intros (x & [= <- <-] & H). apply many_spec in H as (m & -> & H).
      now exists m.
    + intros (m & -> & H & ->). exists rest. split; [reflexivity|].
      apply many_spec. now exists m.
  - destruct s as [| x s].
    + split; [intros []|].
      intros ([| y m] & Hs & Hne & _); [now elim Hne | discriminate Hs].
    + destruct (p x) eqn:E.
      * rewrite in_map_iff. split.
        -- intros (y & [= <- <-] & H). apply many_spec in H as (m & -> & H).
           exists (String x m). simpl. rewrite E, H. repeat split; congruence.
        -- intros ([| y m] & Hs & Hne & H & ->); [now elim Hne|].
           injection Hs as <- ->. exists rest. split; [reflexivity|].
           apply many_spec. exists m. simpl in H.
           apply andb_prop in H as [_ H]. auto.
      * split; [intros []|]. intros ([| y m] & Hs & Hne & H & ->);
          [now elim Hne|].
        injection Hs as <- ->. simpl in H. rewrite E in H. discriminate H.
  - destruct s as [| x s].
    + simpl. split.
      * intros [[= <- <-] | []]. exists "". auto.
      * intros ([| y m] & Hs & _ & ->); [left; now rewrite Hs|discriminate Hs].
    + destruct (p x) eqn:E; simpl.
      * split.
        -- intros [[= <- <-] | [[= <- <-] | []]].
           ++ exists (String x ""). repeat split. right. now exists x.
           ++ exists "". auto.
        -- intros (m & Hs & [-> | (y & -> & Hy)] & ->).
           ++ right. left. now rewrite Hs.
           ++ injection Hs as <- ->. now left.
      * split.
        -- intros [[= <- <-] | []]. exists "". auto.
        -- intros (m & Hs & [-> | (y & -> & Hy)] & ->).
           ++ left. now rewrite Hs.
           ++ injection Hs as <- ->. congruence.
  - rewrite in_flat_map. split.
    + intros ([c1 s1] & H1 & H2). simpl in H2.
      apply IH1 in H1 as (m1 & -> & H1).
      apply IH2 in H2 as (m2 & -> & H2).
      exists (m1 ++ m2). rewrite app_assoc. split; [reflexivity|].
      now exists m1, m2, c1.
    + intros (m & -> & m1 & m2 & c1 & -> & H1 & H2).
      exists (c1, m2 ++ rest). simpl. split.
      * apply IH1. exists m1. now rewrite app_assoc.
      * apply IH2. now exists m2.
  - rewrite in_app_iff, IH1, IH2. split.
    + intros [(m & Hs & H) | (m & Hs & H)]; exists m; auto.
    + intros (m & Hs & [H | H]); [left | right]; now exists m.
  - rewrite in_map_iff. split.
    + intros ([c1 s1] & [= <- <-] & H). simpl.
      apply IH1 in H as (m & -> & H). exists m.
      rewrite consumed_app. split; [reflexivity|]. split; [now exists c1|].
      reflexivity.
    + intros (m & -> & (c1 & H) & ->). exists (c1, rest). simpl.
      rewrite consumed_app. split; [reflexivity|].
      apply IH1. now exists m.
Qed.

Lemma match_at_some (ic : bool) (r : Re.regex) (s : string)
      (g : option string) :
  Re.match_at ic r s = Some g ->
  exists m rest, s = m ++ rest /\ denotes ic r m None g.
Proof.
  unfold Re.match_at.
  destruct (Re.rmatch ic r None s) as [| [c rest] l] eqn:E; [discriminate|].
  intros [= <-]. simpl.
  assert (H : In (c, rest) (Re.rmatch ic r None s)) by (rewrite E; now left).
  apply rmatch_spec in H as (m & -> & H). now exists m, rest.
Qed.

Lemma match_at_none (ic : bool) (r : Re.regex) (s : string) :
  Re.match_at ic r s = None ->
  forall m rest g, s = m ++ rest -> ~ denotes ic r m None g.
Proof.
  unfold Re.match_at.
  destruct (Re.rmatch ic r None s) as [| [c rest'] l] eqn:E; [|discriminate].
  intros _ m rest g -> H.
  assert (Hin : In (g, rest) (Re.rmatch ic r None (m ++ rest)))
    by (apply rmatch_spec; now exists m).
  rewrite E in Hin. destruct Hin.
Qed.

(** [re.search] returns group 1 of a match that no match starts before. *)
Theorem search_some (ic : bool) (r : Re.regex) : forall s g,
  Re.search ic r s = Some g ->
  exists pre m,
    occurs ic r s pre m g
    /\ forall pre' m' g',
        occurs ic r s pre' m' g' -> String.length pre <= String.length pre'.
Proof.
  induction s as [| c s IH]; intros g; simpl.
  - destruct (Re.match_at ic r "") as [g0 |] eqn:E; [|discriminate].
    intros [= <-]. apply match_at_some in E as (m & rest & Hs & H).
    exists "", m. split.
    + split; [now exists rest | exact H].
    + intros; simpl; lia.
  - destruct (Re.match_at ic r (String c s)) as [g0 |] eqn:E.
    + intros [= <-]. apply match_at_some in E as (m & rest & Hs & H).
      exists "", m. split.
      * split; [now exists rest | exact H].
      * intros; simpl; lia.
    + intros Hs. apply IH in Hs as (pre & m & [(post & Hs) H] & Hmin).
      exists (String c pre), m. split.
      * split; [exists post; simpl; now rewrite Hs | exact H].
      * intros [| c' pre'] m' g' [(post' & Hs') H'].
        -- exfalso. simpl in Hs'.
           eapply match_at_none; eauto.
        -- simpl in Hs'. injection Hs' as <- Hs'. simpl.
           apply le_n_S. apply (Hmin pre' m' g').
           split; [now exists post' | exact H'].
Qed.

(** [re.search] returns [None] only when the pattern matches nowhere. *)
Theorem search_none (ic : bool) (r : Re.regex) : forall s,
  Re.search ic r s = None ->
  forall pre m g, ~ occurs ic r s pre m g.
Proof.
  induction s as [| c s IH]; simpl.
  - destruct (Re.match_at ic r "") as [g0 |] eqn:E; [discriminate|].
    intros _ pre m g [(post & Hs) H].
    destruct pre; [|discriminate Hs]. simpl in Hs.
    eapply match_at_none; eauto.
  - destruct (Re.match_at ic r (String c s)) as [g0 |] eqn:E; [discriminate|].
    intros Hn [| c' pre] m g [(post & Hs) H].
    + simpl in Hs. eapply match_at_none; eauto.
    + simpl in Hs. injection Hs as <- Hs.
      apply (IH Hn pre m g). split; [now exists post | exact H].
Qed.

End ReFacts.

(* ------------------------------------------------------------------ *)
(** * Deduplication and sorting *)
(* ------------------------------------------------------------------ *)

Module SortFacts.
Import Scraper Spec.
Local Open Scope list_scope.

Lemma ref_eqb_eq (a b : string * string) : ref_eqb a b = true <-> a = b.
Proof.
  destruct a as [a1 a2], b as [b1 b2]. unfold ref_eqb. simpl.
  rewrite andb_true_iff, !String.eqb_eq. split.
  - intros [-> ->]. reflexivity.
  - intros [= -> ->]. auto.
Qed.

(** ** The dictionary [seen] *)

Lemma dict_set_keys (d : list (string * string * bool))
      (k : string * string) (v : bool) :
  map fst (dict_set ref_eqb d k v) =
  if List.existsb (fun k' => ref_eqb k' k) (map fst d)
  then map fst d else map fst d ++ [k].
Proof.
  induction d as [| [k' v'] d IH]; simpl; [reflexivity|].
  destruct (ref_eqb k' k) eqn:E; simpl; [reflexivity|].
  rewrite IH.
  destruct (List.existsb (fun k'0 => ref_eqb k'0 k) (map fst d));
    reflexivity.
Qed.

Lemma existsb_ref (k : string * string) (l : list (string * string)) :
  List.existsb (fun k' => ref_eqb k' k) l = true <-> In k l.
Proof.
  rewrite existsb_exists. split.
  - intros (x & Hx & E). apply ref_eqb_eq in E. now subst.
  - intros H. exists k. split; [exact H | now apply ref_eqb_eq].
Qed.

Lemma seen_keys (episodes : list (string * string)) : forall d,
  NoDup (map fst d) ->
  NoDup (map fst (seen_of episodes d))
  /\ forall x, In x (map fst (seen_of episodes d))
               <-> In x (map fst d) \/ In x episodes.
Proof.
  induction episodes as [| e es IH]; intros d Hd; simpl.
  - split; [exact Hd|]. intros x. tauto.
  - assert (Hk := dict_set_keys d e true).
    destruct (List.existsb (fun k' => ref_eqb k' e) (map fst d)) eqn:Ex.
    + apply existsb_ref in Ex.
      destruct (IH (dict_set ref_eqb d e true)) as [Hn Hi].
      { now rewrite Hk. }
      split; [exact Hn|]. intros x. unfold seen_of in Hi. rewrite Hi, Hk.
      split; [tauto|]. intros [H | [<- | H]]; tauto.
    + assert (Hout : ~ In e (map fst d)).
      { intros H. apply existsb_ref in H. congruence. }
      destruct (IH (dict_set ref_eqb d e true)) as [Hn Hi].
      { rewrite Hk. apply NoDup_app; [exact Hd | repeat constructor; auto |].
        intros a Ha [<- | []]. contradiction. }
      split; [exact Hn|]. intros x. unfold seen_of in Hi.
      rewrite Hi, Hk, in_app_iff. simpl. tauto.
Qed.

(** ** The order on keys *)

Lemma key_leb_total (a b : N * string) :
  key_leb a b = true \/ key_leb b a = true.
Proof.
  unfold key_leb.
  destruct (N.ltb_spec (fst a) (fst b)); [now left|].
  destruct (N.ltb_spec (fst b) (fst a)); [now right|].
  assert (E : fst a = fst b) by lia. rewrite E, N.eqb_refl. simpl.
  apply String.leb_total.
Qed.

Lemma key_leb_trans (a b c : N * string) :
  key_leb a b = true -> key_leb b c = true -> key_leb a c = true.
Proof.
  unfold key_leb. rewrite !orb_true_iff, !andb_true_iff.
  rewrite !N.ltb_lt, !N.eqb_eq.
  intros [H1 | [H1 L1]] [H2 | [H2 L2]].
  - left. lia.
  - left. lia.
  - left. lia.
  - right. split; [congruence|]. eapply StrFacts.leb_trans; eauto.
Qed.

(** What the order says: the numbers first, then the URLs. *)
Lemma key_leb_iff (a b : N * string) :
  key_leb a b = true <->
  (fst a < fst b)%N
  \/ (fst a = fst b /\ String.leb (snd a) (snd b) = true).
Proof.
  unfold key_leb.
  now rewrite orb_true_iff, andb_true_iff, N.ltb_lt, N.eqb_eq.
Qed.

Section Sort.
Context {A : Type} (key : A -> N * string).

Lemma insert_perm (x : A) (l : list A) :
  Permutation (insert key x l) (x :: l).
Proof.
  induction l as [| y l IH]; simpl; [reflexivity|].
  destruct (key_leb (key x) (key y)); [reflexivity|].
  rewrite IH. apply perm_swap.
Qed.

Lemma sorted_perm (l : list A) : Permutation (sorted key l) l.
Proof.
  induction l as [| x l IH]; simpl; [reflexivity|].
  rewrite insert_perm. now constructor.
Qed.

Lemma insert_sorted (x : A) (l : list A) :
  StronglySorted (key_le key) l -> StronglySorted (key_le key) (insert key x l).
Proof.
  induction 1 as [| y l Hs IH Hy]; simpl.
  - repeat constructor.
  - destruct (key_leb (key x) (key y)) eqn:E.
    + constructor; [now constructor|]. constructor; [exact E|].
      eapply Forall_impl; [|exact Hy]. intros z Hz.
      eapply key_leb_trans; eauto.
    + constructor; [exact IH|].
      assert (Hyx : key_le key y x).
      { destruct (key_leb_total (key x) (key y)); [congruence | auto]. }
      eapply Permutation_Forall; [symmetry; apply insert_perm|].
      now constructor.
Qed.

Lemma sorted_sorted (l : list A) : StronglySorted (key_le key) (sorted key l).
Proof.
  induction l as [| x l IH]; simpl; [constructor|].
  now apply insert_sorted.
Qed.

Lemma sorted_before (l : list A) (x y : A) :
  StronglySorted (key_le key) l -> before x y l -> key_le key x y.
Proof.
  intros Hs (l1 & l2 & l3 & ->).
  induction l1 as [| z l1 IH]; simpl in Hs.
  - apply StronglySorted_inv in Hs as [_ Hx].
    rewrite Forall_forall in Hx. apply Hx.
    apply in_or_app. right. now left.
  - apply StronglySorted_inv in Hs as [Hs _]. auto.
Qed.

End Sort.

Lemma in_before {A} (l : list A) (x y : A) :
  In x l -> In y l -> x <> y -> before x y l \/ before y x l.
Proof.
  intros Hx Hy Hne.
  apply in_split in Hx as (l1 & l2 & ->).
  apply in_app_or in Hy as [Hy | [Hy | Hy]].
  - right. apply in_split in Hy as (a & b & ->).
    exists a, b, l2. now rewrite <- app_assoc.
  - congruence.
  - left. apply in_split in Hy as (a & b & ->). now exists l1, a, b.
Qed.

(** ** [dedup_sort] *)

Lemma dedup_sort_perm (episodes : list (string * string)) :
  Permutation (dedup_sort episodes) (map fst (seen_of episodes [])).
Proof. apply sorted_perm. Qed.

Lemma dedup_sort_nodup (episodes : list (string * string)) :
  NoDup (dedup_sort episodes).
Proof.
  eapply Permutation_NoDup; [symmetry; apply dedup_sort_perm|].
  apply seen_keys. constructor.
Qed.

Lemma dedup_sort_in (episodes : list (string * string)) (x : string * string) :
  In x (dedup_sort episodes) <-> In x episodes.
Proof.
  split.
  - intros H. eapply Permutation_in in H; [|apply dedup_sort_perm].
    apply seen_keys in H; [|constructor]. destruct H as [[] | H]. exact H.
  - intros H. eapply Permutation_in; [symmetry; apply dedup_sort_perm|].
    apply seen_keys; [constructor|]. now right.
Qed.

Lemma dedup_sort_sorted (episodes : list (string * string)) :
  StronglySorted (key_le sort_key) (dedup_sort episodes).
Proof. apply sorted_sorted. Qed.

(** The example of the specification, for any three URLs. *)
Lemma dedup_sort_example (u1 u2 u3 : string) :
  dedup_sort [("3", u1); ("1", u2); ("?", u3); ("1", u2)]
  = [("1", u2); ("3", u1); ("?", u3)].
Proof.
  unfold dedup_sort. simpl. unfold ref_eqb. simpl.
  rewrite String.eqb_refl. reflexivity.
Qed.

End SortFacts.

(* ------------------------------------------------------------------ *)
(** * The episode list *)
(* ------------------------------------------------------------------ *)

Module EpisodeFacts.
Import Eff Scraper Spec.
Local Open Scope list_scope.

(** Group 1 of the two episode patterns is a run of digits. *)
Lemma episode_text_capture (m : string) (g : option string) :
  denotes true re_episode_text m None g ->
  exists d, g = Some d /\ Str.isdigit d = true.
Proof.
  unfold re_episode_text. simpl.
  intros (m1 & m2 & c1 & _ & _ & m3 & m4 & c2 & _ & _ & (c3 & Hne & Hd & _) & ->).
  exists m4. split; [reflexivity|]. unfold Str.isdigit.
  apply StrFacts.truthy_iff in Hne. now rewrite Hne.
Qed.

Lemma episode_href_capture (m : string) (g : option string) :
  denotes true re_episode_href m None g ->
  exists d, g = Some d /\ Str.isdigit d = true.
Proof.
  unfold re_episode_href. simpl.
  intros (m1 & m2 & c1 & _ & _ & m3 & m4 & c2 & _ & _ & (c3 & Hne & Hd & _) & ->).
  exists m4. split; [reflexivity|]. unfold Str.isdigit.
  apply StrFacts.truthy_iff in Hne. now rewrite Hne.
Qed.

Lemma isdigit_truthy (d : string) : Str.isdigit d = true -> Str.truthy d = true.
Proof. unfold Str.isdigit. now intros H%andb_prop. Qed.

(** The number of a link: group 1 of the leftmost match of the text
    pattern in the text; failing that, of the href pattern in the href;
    failing that, the sentinel. *)
Lemma episode_number_spec (text href : string) :
  let num := episode_number text href in
  (exists pre m, occurs true re_episode_text text pre m (Some num)
                 /\ Str.isdigit num = true)
  \/ ((forall pre m g, ~ occurs true re_episode_text text pre m g)
      /\ exists pre m, occurs true re_episode_href href pre m (Some num)
                       /\ Str.isdigit num = true)
  \/ ((forall pre m g, ~ occurs true re_episode_text text pre m g)
      /\ (forall pre m g, ~ occurs true re_episode_href href pre m g)
      /\ num = "?"%string).
Proof.
  unfold episode_number.
  destruct (Re.search true re_episode_text text) as [g |] eqn:Et.
  - apply ReFacts.search_some in Et as (pre & m & Ho & _).
    destruct (episode_text_capture _ _ (proj2 Ho)) as (d & -> & Hd).
    simpl. rewrite (isdigit_truthy _ Hd). left. now exists pre, m.
  - assert (Hn := ReFacts.search_none _ _ _ Et). simpl.
    destruct (Re.search true re_episode_href href) as [g |] eqn:Eh.
    + apply ReFacts.search_some in Eh as (pre & m & Ho & _).
      destruct (episode_href_capture _ _ (proj2 Ho)) as (d & -> & Hd).
      simpl. right. left. split; [exact Hn|]. now exists pre, m.
    + right. right. split; [exact Hn|].
      split; [exact (ReFacts.search_none _ _ _ Eh) | reflexivity].
Qed.

Lemma episode_number_shape (text href : string) :
  episode_number text href = "?"%string
  \/ Str.isdigit (episode_number text href) = true.
Proof.
  destruct (episode_number_spec text href)
    as [(_ & _ & _ & H) | [(_ & _ & _ & _ & H) | (_ & _ & H)]]; auto.
Qed.

Section WithEnv.
Variable HIANIME_DOMAIN_POOL : list string.
Variable http_get : trace -> client -> string -> response.
Variable browser : trace -> string -> result string.
Variable BeautifulSoup : string -> Soup.node.
Variable bracketed_ok : string -> bool.

(** Every reference the loop adds comes from a candidate link with a
    non-empty [href]. *)
Lemma episodes_loop_inv (base : string) (candidates : list Soup.node) :
  forall episodes out,
    episodes_loop bracketed_ok base candidates episodes = Ok out ->
    forall x, In x out ->
      In x episodes
      \/ exists a href,
           In a candidates
           /\ href = Str.strip (Soup.get_default a "href" "")
           /\ href <> ""%string
           /\ fst x = episode_number (Soup.get_text " " a) href
           /\ _abs bracketed_ok base href = Ok (snd x).
Proof.
  induction candidates as [| a rest IH]; intros episodes out; simpl.
  - intros [= <-] x Hx. now left.
  - destruct (Str.is_empty (Str.strip (Soup.get_default a "href" "")))
      eqn:Ee.
    + intros H x Hx. destruct (IH _ _ H x Hx) as [Hin | (a' & h & Ha & R)].
      * now left.
      * right. exists a', h. split; [now right | exact R].
    + destruct (_abs bracketed_ok base
                  (Str.strip (Soup.get_default a "href" ""))) as [u | e]
        eqn:Eu; [|discriminate].
      intros H x Hx. destruct (IH _ _ H x Hx) as [Hin | (a' & h & Ha & R)].
      * apply in_app_or in Hin as [Hin | [<- | []]]; [now left|].
        right. exists a, (Str.strip (Soup.get_default a "href" "")).
        repeat split; auto.
        intros Hz. apply StrFacts.is_empty_iff in Hz. congruence.
      * right. exists a', h. split; [now right | exact R].
Qed.

Lemma parse_episodes_inv (base : string) (soup : Soup.node)
      (out : list (string * string)) :
  parse_episodes bracketed_ok base soup = Ok out ->
  exists candidates episodes,
    episodes_loop bracketed_ok base candidates [] = Ok episodes
    /\ out = dedup_sort episodes.
Proof.
  unfold parse_episodes.
  match goal with
  | |- context [episodes_loop bracketed_ok base ?c []] =>
      destruct (episodes_loop bracketed_ok base c []) as [eps | e] eqn:E;
      [|discriminate]; intros [= <-]; now exists c, eps
  end.
Qed.

Lemma get_episodes_list_inv (anime_url : string) (t t' : trace)
      (out : list (string * string)) :
  get_episodes_list HIANIME_DOMAIN_POOL http_get browser BeautifulSoup
    bracketed_ok anime_url t = (Ok out, t') ->
  exists base t1 html,
    _base_of HIANIME_DOMAIN_POOL http_get bracketed_ok anime_url t
    = (Ok base, t1)
    /\ browser t1 anime_url = Ok html
    /\ t' = t1 ++ [EvRender anime_url]
    /\ parse_episodes bracketed_ok base (BeautifulSoup html) = Ok out.
Proof.
  unfold get_episodes_list, bind, _rendered_html, lift.
  destruct (_base_of _ _ _ anime_url t) as [[base | e] t1]; [|discriminate].
  destruct (browser t1 anime_url) as [html | e] eqn:Eb; [|discriminate].
  intros [= H <-]. now exists base, t1, html.
Qed.

(** C9, as amended: every episode number in the list that
    [get_episodes_list] returns is either a non-empty run of the digits
    0 to 9 (zero and leading zeros included), taken from a match of
    [Episode <digits>] in the text of a link or else from a run of
    digits next to [episode] in its href, or the sentinel [?]. *)
Theorem episode_numbers_digits_or_unknown
        (anime_url : string) (t t' : trace)
        (out : list (string * string)) :
  get_episodes_list HIANIME_DOMAIN_POOL http_get browser BeautifulSoup
    bracketed_ok anime_url t = (Ok out, t') ->
  forall num url, In (num, url) out ->
    (num = "?"%string \/ Str.isdigit num = true)
    /\ exists a,
        let text := Soup.get_text " " a in
        let href := Str.strip (Soup.get_default a "href" "") in
        href <> ""%string
        /\ ((exists pre m,
                occurs true re_episode_text text pre m (Some num))
            \/ ((forall pre m g,
                    ~ occurs true re_episode_text text pre m g)
                /\ exists pre m,
                    occurs true re_episode_href href pre m (Some num))
            \/ ((forall pre m g,
                    ~ occurs true re_episode_text text pre m g)
                /\ (forall pre m g,
                      ~ occurs true re_episode_href href pre m g)
                /\ num = "?"%string)).
Proof.
  intros Hrun num url Hin.
  apply get_episodes_list_inv in Hrun as (base & t1 & html & _ & _ & _ & Hp).
  apply parse_episodes_inv in Hp as (cands & eps & Hl & ->).
  apply (proj1 (SortFacts.dedup_sort_in _ _)) in Hin.
  destruct (episodes_loop_inv _ _ _ _ Hl _ Hin)
    as [[] | (a & href & _ & -> & Hne & Hn & _)].
  simpl in Hn. subst num. split.
  - apply episode_number_shape.
  - exists a. cbv zeta. split; [exact Hne|].
    destruct (episode_number_spec (Soup.get_text " " a)
                (Str.strip (Soup.get_default a "href" "")))
      as [(pre & m & H & _) | [(Hn & pre & m & H & _) | H]].
    + left. now exists pre, m.
    + right. left. split; [exact Hn|]. now exists pre, m.
    + right. right. exact H.
Qed.

(** C2, as amended: the list [get_episodes_list] returns has no
    duplicate (number, URL) pair and is sorted by number, where a number
    that is not a run of digits counts as 10^9, and then by URL: of two
    entries the one with the smaller number comes first, and with equal
    numbers the one with the smaller URL. So an entry with an unknown
    number comes after every entry whose number is below 10^9. The
    references of the specification's example come out as it says. *)
Theorem episodes_dedup_sorted
        (anime_url : string) (t t' : trace)
        (out : list (string * string)) :
  get_episodes_list HIANIME_DOMAIN_POOL http_get browser BeautifulSoup
    bracketed_ok anime_url t = (Ok out, t') ->
  NoDup out
  /\ (forall x y, before x y out ->
        (fst (sort_key x) < fst (sort_key y))%N
        \/ (fst (sort_key x) = fst (sort_key y)
            /\ String.leb (snd x) (snd y) = true))
  /\ (forall x y, In x out -> In y out ->
        Str.isdigit (fst x) = true -> (Str.int (fst x) < 10 ^ 9)%N ->
        Str.isdigit (fst y) = false ->
        before x y out)
  /\ (forall u1 u2 u3,
        dedup_sort [("3", u1); ("1", u2); ("?", u3); ("1", u2)]
        = [("1", u2); ("3", u1); ("?", u3)])%string.
Proof.
  intros Hrun.
  apply get_episodes_list_inv in Hrun as (base & t1 & html & _ & _ & _ & Hp).
  apply parse_episodes_inv in Hp as (cands & eps & Hl & ->).
  assert (Hsorted : forall x y, before x y (dedup_sort eps) ->
            (fst (sort_key x) < fst (sort_key y))%N
            \/ (fst (sort_key x) = fst (sort_key y)
                /\ String.leb (snd x) (snd y) = true)).
  { intros x y Hb.
    apply (SortFacts.sorted_before _ _ _ _ (SortFacts.dedup_sort_sorted eps)) in Hb.
    apply SortFacts.key_leb_iff in Hb. exact Hb. }
  split; [apply SortFacts.dedup_sort_nodup|].
  split; [exact Hsorted|].
  split; [|apply SortFacts.dedup_sort_example].
  intros x y Hx Hy Hdx Hlt Hdy.
  assert (Hne : x <> y) by (intros ->; congruence).
  destruct (SortFacts.in_before _ _ _ Hx Hy Hne) as [Hb | Hb];
    [exact Hb|].
  exfalso. apply Hsorted in Hb. unfold sort_key in Hb. simpl in Hb.
  rewrite Hdx, Hdy in Hb. destruct Hb as [Hb | [Hb _]]; lia.
Qed.

End WithEnv.

Import Examples.

Lemma episode_numbers_witness :
  ("0" = "?" \/ Str.isdigit "0" = true)%string.
Proof.
  exact (proj1 (episode_numbers_digits_or_unknown
                  [] offline (shows "<html>") (reads page_episode_zero)
                  any_bracketed "https://h.example/anime" [] _ _ eq_refl
                  "0"%string "https://h.example/watch/pilot"%string
                  (or_introl eq_refl))).
Defined.

(** C9, as stated, fails on a page whose link reads [Episode 0]: the
    number of that entry is [0], which is neither a positive integer nor
    the sentinel. *)
Lemma episode_number_zero :
  get_episodes_list [] offline (shows "<html>") (reads page_episode_zero)
    any_bracketed "https://h.example/anime" []
  = (Ok [("0", "https://h.example/watch/pilot");
         ("1", "https://h.example/watch/first")]%string,
     [EvRender "https://h.example/anime"])
  /\ Str.int "0" = 0%N /\ "0"%string <> "?"%string.
Proof. repeat split. discriminate. Qed.

Lemma episodes_dedup_sorted_witness :
  NoDup [("?", "https://h.example/watch/a");
         ("2000000000", "https://h.example/watch/b")]%string.
Proof.
  exact (proj1 (episodes_dedup_sorted
                  [] offline (shows "<html>") (reads page_large_number)
                  any_bracketed "https://h.example/anime" [] _ _ eq_refl)).
Defined.

(** C2, as stated, fails on a page with an episode numbered 2000000000:
    the link whose number is unknown comes out before it. *)
Lemma unknown_before_large_number :
  get_episodes_list [] offline (shows "<html>") (reads page_large_number)
    any_bracketed "https://h.example/anime" []
  = (Ok [("?", "https://h.example/watch/a");
         ("2000000000", "https://h.example/watch/b")]%string,
     [EvRender "https://h.example/anime"])
  /\ Str.isdigit "2000000000" = true /\ Str.isdigit "?" = false.
Proof. repeat split. Qed.

End EpisodeFacts.

(* ------------------------------------------------------------------ *)
(** * Stream and subtitle extraction *)
(* ------------------------------------------------------------------ *)

Module ExtractFacts.
Import Eff Scraper Spec.

(** ** From the patterns to the fragments *)

Lemma lower_single (c : ascii) (x : string) :
  Str.is_ascii_alpha c = false ->
  Str.lower (String c "") = Str.lower x -> x = String c "".
Proof.
  intros Hc H. destruct x as [| d [| e x]]; try discriminate H.
  simpl in H. injection H as H. f_equal.
  destruct c as [[] [] [] [] [] [] [] []]; try discriminate Hc;
    destruct d as [[] [] [] [] [] [] [] []]; try discriminate H; reflexivity.
Qed.

Ltac unpack :=
  repeat match goal with
         | H : exists _, _ |- _ => destruct H as [? H]
         | H : _ /\ _ |- _ => destruct H
         end.

Ltac singles :=
  repeat match goal with
         | H : Str.lower (String ?c "") = Str.lower ?x |- _ =>
             apply (lower_single c x eq_refl) in H; subst x
         end.

Ltac pieces :=
  repeat split;
  first [ assumption | symmetry; assumption
        | eexists; split; [|symmetry; eassumption]; simpl; tauto
        | idtac ].

Lemma hls_denotes_fragment (m : string) (g : option string) :
  denotes true re_hls m None g ->
  exists u, g = Some u /\ hls_fragment m u.
Proof.
  unfold re_hls, Scraper.Q. cbn [denotes Re.seq]. unfold text_eq.
  intros H. unpack. singles. subst.
  eexists. split; [reflexivity|].
  unfold hls_fragment, fragment, caseless, all_ws, quote_free, Q.
  do 11 eexists. split; [reflexivity|].
  match goal with H : _ \/ _ |- _ => destruct H as [[? ?] | [? ?]] end;
    pieces.
Qed.

Ltac ext_choice :=
  first [ exists ".vtt"%string; split;
          [simpl; tauto | simpl; f_equal; symmetry; assumption]
        | exists ".srt"%string; split;
          [simpl; tauto | simpl; f_equal; symmetry; assumption] ].

Ltac cases :=
  repeat match goal with
         | H : _ \/ _ |- _ => destruct H as [H | H]
         end;
  unpack.

Lemma sub_code_denotes_fragment (m : string) (g : option string) :
  denotes true re_sub_code m None g ->
  exists u, g = Some u /\ sub_code_fragment m u.
Proof.
  unfold re_sub_code, re_sub_file, Scraper.Q.
  cbn [denotes Re.seq app]. unfold text_eq.
  intros H. unpack. singles. subst.
  eexists. split; [reflexivity|].
  unfold sub_code_fragment, fragment, caseless, all_ws, quote_free, Q.
  do 11 eexists. split; [reflexivity|].
  cases; pieces; ext_choice.
Qed.

Lemma sub_name_denotes_fragment (m : string) (g : option string) :
  denotes true re_sub_name m None g ->
  exists u, g = Some u /\ sub_name_fragment m u.
Proof.
  unfold re_sub_name, re_sub_file, Scraper.Q.
  cbn [denotes Re.seq app]. unfold text_eq.
  intros H. unpack. singles. subst.
  eexists. split; [reflexivity|].
  unfold sub_name_fragment, fragment, caseless, all_ws, quote_free, Q.
  match goal with
  | H : Str.lower "English" = Str.lower ?e |- context [?e ++ ?r ++ ?rest] =>
      rewrite <- (StrFacts.app_assoc e r rest)
  end.
  do 11 eexists. split; [reflexivity|].
  cases; pieces;
    first [ ext_choice
          | do 2 eexists; split; [reflexivity|]; split;
            [symmetry; assumption | assumption] ].
Qed.

Ltac atom :=
  first [ split; [reflexivity | reflexivity]
        | split; [symmetry; assumption | reflexivity]
        | split; [assumption | reflexivity] ].

Ltac piece :=
  first [ atom | left; atom | right; atom | right; left; atom
        | right; right; atom ].

Ltac step :=
  eexists _, _, _; split; [reflexivity|]; split; [piece|].

Ltac members :=
  repeat match goal with
         | H : In _ _ |- _ => simpl in H
         | H : _ \/ _ |- _ => destruct H as [H | H]
         | H : False |- _ => destruct H
         end.

Lemma hls_fragment_denotes (m u : string) :
  hls_fragment m u -> denotes true re_hls m None (Some u).
Proof.
  unfold hls_fragment, fragment, caseless, all_ws, quote_free, Q.
  intros H. unpack. members; subst;
  unfold re_hls, Scraper.Q; cbn [denotes Re.seq]; unfold text_eq;
  do 19 step;
  (eexists _, _, _; split; [reflexivity|]; split; [|split; reflexivity]);
  (split; [|reflexivity]); do 4 eexists; (split; [reflexivity|]);
  (split; [repeat split; assumption|]);
  (split; [symmetry; assumption | reflexivity]).
Qed.

Lemma lower_dot (x r : string) :
  Str.lower x = String "." r ->
  exists x', x = String "." x' /\ Str.lower x' = r.
Proof.
  destruct x as [| c x]; [discriminate|]. simpl. intros [= Hc Hx].
  exists x. split; [|exact Hx]. f_equal.
  destruct c as [[] [] [] [] [] [] [] []]; try discriminate Hc; reflexivity.
Qed.

Ltac dots :=
  repeat match goal with
         | H : Str.lower ?x = Str.lower (String "."%char ?r) |- _ =>
             simpl in H; apply lower_dot in H as (? & ? & H); subst x
         end.

Ltac sub_group :=
  (eexists _, _, _; split; [reflexivity|]; split; [|split; reflexivity]);
  (split; [|reflexivity]); eexists;
  (eexists _, _, _; split; [reflexivity|]);
  (split; [repeat split; assumption|]);
  (exists "."%string; eexists _, _; split; [reflexivity|]);
  (split; [split; reflexivity|]);
  first [ left; split; [symmetry; assumption | reflexivity]
        | right; split; [symmetry; assumption | reflexivity] ].

Lemma sub_code_fragment_denotes (m u : string) :
  sub_code_fragment m u -> denotes true re_sub_code m None (Some u).
Proof.
  unfold sub_code_fragment, fragment, caseless, all_ws, quote_free, Q.
  intros H. unpack. members; subst; dots;
  unfold re_sub_code, re_sub_file, Scraper.Q; cbn [denotes Re.seq app];
  unfold text_eq;
  do 19 step; sub_group.
Qed.

Lemma sub_name_fragment_denotes (m u : string) :
  sub_name_fragment m u -> denotes true re_sub_name m None (Some u).
Proof.
  unfold sub_name_fragment, fragment, caseless, all_ws, quote_free, Q.
  intros H. unpack. members; subst; dots;
  unfold re_sub_name, re_sub_file, Scraper.Q; cbn [denotes Re.seq app];
  unfold text_eq;
  do 7 step;
  rewrite StrFacts.app_assoc;
  do 13 step; sub_group.
Qed.

(** ** One fragment at a position *)

Lemma not_quote_lower (c : ascii) :
  Re.not_quote (Str.lower_ascii c) = Re.not_quote c.
Proof. destruct c as [[] [] [] [] [] [] [] []]; reflexivity. Qed.

Lemma quote_free_lower (a : string) :
  Str.forallb Re.not_quote (Str.lower a) = Str.forallb Re.not_quote a.
Proof.
  induction a as [| c a IH]; simpl; [reflexivity|].
  now rewrite not_quote_lower, IH.
Qed.

Lemma caseless_quote_free (a b : string) :
  caseless a b -> quote_free b -> quote_free a.
Proof.
  unfold caseless, quote_free. intros E H.
  now rewrite <- quote_free_lower, E, quote_free_lower.
Qed.

Lemma ws_not_quote (c : ascii) : Str.isspace c = true -> Re.not_quote c = true.
Proof.
  destruct c as [[] [] [] [] [] [] [] []]; vm_compute; intros H;
    first [reflexivity | discriminate H].
Qed.

Lemma all_ws_quote_free (w : string) : all_ws w -> quote_free w.
Proof.
  unfold all_ws, quote_free. induction w as [| c w IH]; simpl; [auto|].
  intros [Hc Hw]%andb_prop. now rewrite (ws_not_quote c Hc), IH.
Qed.

Lemma quote_free_app (a b : string) :
  quote_free a -> quote_free b -> quote_free (a ++ b).
Proof.
  unfold quote_free. intros Ha Hb. now rewrite StrFacts.forallb_app, Ha, Hb.
Qed.

Lemma split_quote (r : string) :
  Str.split Str.dquote (Q ++ r) = "" :: Str.split Str.dquote r.
Proof. reflexivity. Qed.

Lemma split_piece (a r : string) :
  quote_free a ->
  Str.split Str.dquote (a ++ Q ++ r) = a :: Str.split Str.dquote r.
Proof.
  unfold quote_free. induction a as [| c a IH]; simpl; [reflexivity|].
  intros [Hc Ha]%andb_prop. unfold Re.not_quote in Hc.
  apply negb_true_iff in Hc. rewrite Hc.
  simpl in IH. now rewrite (IH Ha).
Qed.

Lemma split_piece3 (a b c r : string) :
  quote_free a -> quote_free b -> quote_free c ->
  Str.split Str.dquote (a ++ b ++ c ++ Q ++ r)
  = (a ++ b ++ c) :: Str.split Str.dquote r.
Proof.
  intros Ha Hb Hc.
  rewrite <- (StrFacts.app_assoc b c), <- (StrFacts.app_assoc a (b ++ c)).
  rewrite split_piece; [reflexivity|].
  now repeat apply quote_free_app.
Qed.

Lemma split_piece2 (a b r : string) :
  quote_free a -> quote_free b ->
  Str.split Str.dquote (a ++ b ++ Q ++ r)
  = (a ++ b) :: Str.split Str.dquote r.
Proof.
  intros Ha Hb. rewrite <- (StrFacts.app_assoc a b).
  rewrite split_piece; [reflexivity|]. now apply quote_free_app.
Qed.

(** In any text that begins with a fragment, the URL of the fragment is
    the text between the seventh and the eighth double quote. *)
Lemma fragment_url (name : string) (value_ok : string -> Prop)
      (keys exts : list string) (frag u post : string) :
  (forall v, value_ok v -> quote_free v) ->
  quote_free name -> Forall quote_free keys -> Forall quote_free exts ->
  fragment name value_ok keys exts frag u ->
  nth_error (Str.split Str.dquote (frag ++ post)) 7 = Some u.
Proof.
  intros Hv Hn Hk He
    (nm & w1 & w2 & value & w3 & w4 & key & w5 & w6 & stem & ext
     & -> & Hnm & Hval & (k & Hkin & Hkey)
     & (H1 & H2 & H3 & H4 & H5 & H6) & -> & _ & Hstem & (e & Hein & Hext)).
  rewrite Forall_forall in Hk, He.
  assert (Qnm := caseless_quote_free _ _ Hnm Hn).
  assert (Qkey := caseless_quote_free _ _ Hkey (Hk _ Hkin)).
  assert (Qext := caseless_quote_free _ _ Hext (He _ Hein)).
  assert (Qu := quote_free_app _ _ Hstem Qext).
  apply all_ws_quote_free in H1, H2, H3, H4, H5, H6.
  assert (Qc : quote_free ":") by reflexivity.
  assert (Qm : quote_free ",") by reflexivity.
  repeat rewrite StrFacts.app_assoc.
  rewrite split_quote, split_piece by assumption.
  rewrite split_piece3 by assumption.
  rewrite split_piece by auto.
  rewrite split_piece3 by assumption.
  rewrite split_piece by assumption.
  rewrite split_piece3 by assumption.
  rewrite split_piece2 by assumption.
  reflexivity.
Qed.

Lemma fragment_determined (name : string) (value_ok : string -> Prop)
      (keys exts : list string) :
  (forall v, value_ok v -> quote_free v) ->
  quote_free name -> Forall quote_free keys -> Forall quote_free exts ->
  prefix_determined (fragment name value_ok keys exts).
Proof.
  intros Hv Hn Hk He frag u post frag' u' post' F1 F2 E.
  assert (H1 := fragment_url name value_ok keys exts frag u post
                  Hv Hn Hk He F1).
  assert (H2 := fragment_url name value_ok keys exts frag' u' post'
                  Hv Hn Hk He F2).
  rewrite E in H1. congruence.
Qed.

Lemma hls_determined : prefix_determined hls_fragment.
Proof.
  apply fragment_determined.
  - intros v Hv. now apply (caseless_quote_free v "HD-2").
  - reflexivity.
  - repeat constructor.
  - repeat constructor.
Qed.

Lemma sub_code_determined : prefix_determined sub_code_fragment.
Proof.
  apply fragment_determined.
  - intros v Hv. now apply (caseless_quote_free v "en").
  - reflexivity.
  - repeat constructor.
  - repeat constructor.
Qed.

Lemma sub_name_determined : prefix_determined sub_name_fragment.
Proof.
  apply fragment_determined.
  - intros v (e & rest & -> & He & Hr). apply quote_free_app; [|exact Hr].
    now apply (caseless_quote_free e "English").
  - reflexivity.
  - repeat constructor.
  - repeat constructor.
Qed.

Lemma first_fragment_unique (F : string -> string -> Prop)
      (html u u' : string) :
  prefix_determined F ->
  first_fragment F html u -> first_fragment F html u' -> u = u'.
Proof.
  intros Hd (pre & frag & [(post & E) Hf] & Hmin)
            (pre' & frag' & [(post' & E') Hf'] & Hmin').
  assert (L : String.length pre = String.length pre').
  { apply Nat.le_antisymm.
    - apply (Hmin pre' frag' u'). split; [now exists post' | exact Hf'].
    - apply (Hmin' pre frag u). split; [now exists post | exact Hf]. }
  rewrite E in E'.
  destruct (StrFacts.app_eq_length _ _ _ _ E' L) as [_ E2].
  exact (Hd _ _ _ _ _ _ Hf Hf' E2).
Qed.

(** ** What [re.search] finds, in terms of fragments *)

Section Find.
Variable r : Re.regex.
Variable F : string -> string -> Prop.
Hypothesis sound : forall m g,
    denotes true r m None g -> exists u, g = Some u /\ F m u.
Hypothesis complete : forall m u, F m u -> denotes true r m None (Some u).
Hypothesis determined : prefix_determined F.

Lemma search_first (html : string) (g : option string) :
  Re.search true r html = Some g ->
  exists u, g = Some u /\ first_fragment F html u.
Proof.
  intros H. apply ReFacts.search_some in H as (pre & m & [Hp Hm] & Hmin).
  destruct (sound m g Hm) as (u & -> & Hf).
  exists u. split; [reflexivity|]. exists pre, m. split.
  - split; assumption.
  - intros pre' frag' u' [Hp' Hf']. apply (Hmin pre' frag' (Some u')).
    split; [exact Hp' | now apply complete].
Qed.

Lemma search_nowhere (html : string) :
  Re.search true r html = None -> no_fragment F html.
Proof.
  intros H pre frag u [Hp Hf].
  apply (ReFacts.search_none true r html H pre frag (Some u)).
  split; [exact Hp | now apply complete].
Qed.

Lemma search_iff (html u : string) :
  Re.group1 (Re.search true r html) = Some u <-> first_fragment F html u.
Proof.
  split.
  - destruct (Re.search true r html) as [g |] eqn:E; [|discriminate].
    simpl. intros ->. apply search_first in E as (u' & [= <-] & H). exact H.
  - intros H. destruct (Re.search true r html) as [g |] eqn:E.
    + apply search_first in E as (u' & -> & H'). simpl. f_equal.
      exact (first_fragment_unique F html u' u determined H' H).
    + exfalso. destruct H as (pre & frag & Hf & _).
      exact (search_nowhere html E pre frag u Hf).
Qed.

Lemma search_none_iff (html : string) :
  Re.group1 (Re.search true r html) = None <-> no_fragment F html.
Proof.
  split.
  - destruct (Re.search true r html) as [g |] eqn:E.
    + apply search_first in E as (u' & -> & H'). discriminate.
    + intros _. now apply search_nowhere.
  - intros H. destruct (Re.search true r html) as [g |] eqn:E;
      [|reflexivity].
    apply search_first in E as (u' & -> & (pre & frag & Hf & _)).
    exfalso. exact (H pre frag u' Hf).
Qed.

End Find.

(** ** The two searches of [extract_episode_stream_and_subtitle] *)

(** The stream URL is the URL of the first fragment
    ['label' : 'HD-2' , 'file'|'url' : '....m3u8'] of the page, all of it
    read without regard to letter case; there is none exactly when the page
    holds no such fragment. *)
Theorem find_hls_first_fragment (html : string) :
  (forall u, find_hls html = Some u <-> first_fragment hls_fragment html u)
  /\ (find_hls html = None <-> no_fragment hls_fragment html).
Proof.
  split; [intros u|]; unfold find_hls.
  - exact (search_iff re_hls hls_fragment hls_denotes_fragment
             hls_fragment_denotes hls_determined html u).
  - exact (search_none_iff re_hls hls_fragment hls_denotes_fragment
             hls_fragment_denotes html).
Qed.

Lemma find_sub_cases (html : string) :
  find_sub html =
  match Re.group1 (Re.search true re_sub_code html) with
  | Some u => Some u
  | None => Re.group1 (Re.search true re_sub_name html)
  end.
Proof.
  unfold find_sub.
  destruct (Re.search true re_sub_code html) as [g |] eqn:E; [|reflexivity].
  apply (search_first re_sub_code sub_code_fragment
           sub_code_denotes_fragment sub_code_fragment_denotes) in E
    as (u & -> & _).
  reflexivity.
Qed.

(** The subtitle URL is the URL of the first fragment with
    ['srclang' : 'en'] when the page has one, whatever comes before it;
    otherwise that of the first fragment with ['lang' : 'English...'];
    there is none exactly when the page holds neither. *)
Theorem find_sub_code_then_name (html : string) :
  (forall u,
      find_sub html = Some u <->
      first_fragment sub_code_fragment html u
      \/ (no_fragment sub_code_fragment html
          /\ first_fragment sub_name_fragment html u))
  /\ (find_sub html = None <->
      no_fragment sub_code_fragment html
      /\ no_fragment sub_name_fragment html).
Proof.
  assert (Hc := fun u => search_iff re_sub_code sub_code_fragment
                  sub_code_denotes_fragment sub_code_fragment_denotes
                  sub_code_determined html u).
  assert (Hcn := search_none_iff re_sub_code sub_code_fragment
                   sub_code_denotes_fragment sub_code_fragment_denotes
                   html).
  assert (Hn := fun u => search_iff re_sub_name sub_name_fragment
                  sub_name_denotes_fragment sub_name_fragment_denotes
                  sub_name_determined html u).
  assert (Hnn := search_none_iff re_sub_name sub_name_fragment
                   sub_name_denotes_fragment sub_name_fragment_denotes
                   html).
  rewrite find_sub_cases.
  destruct (Re.group1 (Re.search true re_sub_code html)) as [uc |] eqn:Ec.
  - clear Ec. assert (Ec := proj1 (Hc uc) eq_refl). split.
    + intros u. split.
      * intros [= <-]. now left.
      * intros [H | [Hno _]].
        -- f_equal. exact (first_fragment_unique _ _ _ _
                             sub_code_determined Ec H).
        -- exfalso. destruct Ec as (pre & frag & Hf & _).
           exact (Hno pre frag uc Hf).
    + split; [discriminate|]. intros [Hno _]. exfalso.
      destruct Ec as (pre & frag & Hf & _). exact (Hno pre frag uc Hf).
  - clear Ec. assert (Ec := proj1 Hcn eq_refl). split.
    + intros u. rewrite Hn. split.
      * intros H. right. auto.
      * intros [(pre & frag & Hf & _) | [_ H]]; [|exact H].
        exfalso. exact (Ec pre frag u Hf).
    + rewrite Hnn. tauto.
Qed.

End ExtractFacts.

(* ------------------------------------------------------------------ *)
(** * What a fetch leaves in the trace *)
(* ------------------------------------------------------------------ *)

Module FetchFacts.
Import Eff Scraper Spec.
Local Open Scope list_scope.

Section WithEnv.
Variable HTTP_TIMEOUT : N.
Variable http_get : trace -> client -> string -> response.

Ltac allowed :=
  apply Forall_app; split;
  [constructor; [auto|]; constructor; [auto|]; constructor | assumption].

Lemma retry_loop_inv (url : string) (n : nat) : forall last t,
  exists ext,
    snd (retry_loop HTTP_TIMEOUT http_get n last url t) = t ++ ext
    /\ Forall (fun e => e = EvGet Cloudscraper url HTTP_TIMEOUT
                        \/ e = EvSleep 600 \/ e = EvSleep 400) ext
    /\ match fst (retry_loop HTTP_TIMEOUT http_get n last url t) with
       | Ok body =>
           exists pre st,
             ext = pre ++ [EvGet Cloudscraper url HTTP_TIMEOUT]
             /\ http_get (t ++ pre) Cloudscraper url = Response st body
             /\ (st < 400)%Z
       | Raise e =>
           requests ext = n
           /\ (e = TypeError \/ last = Some e
               \/ exists t0, http_get t0 Cloudscraper url = Failure e
               \/ exists t0 st body,
                   http_get t0 Cloudscraper url = Response st body
                   /\ (400 <= st < 500)%Z /\ e = HTTPError st)
       end.
Proof.
  induction n as [| n IH]; intros last t.
  - exists []. rewrite app_nil_r. split; [now destruct last|].
    split; [constructor|].
    destruct last as [e |]; simpl; split; auto.
  - rewrite RetryFacts.retry_loop_S.
    destruct (http_get t Cloudscraper url) as [st body | e] eqn:Eg.
    + destruct (Z.geb_spec st 500) as [Hge | Hlt]; cbv iota.
      * destruct (IH last (t ++ [EvGet Cloudscraper url HTTP_TIMEOUT;
                                 EvSleep 600]))
          as (ext & Ht & Hall & Hres).
        exists ([EvGet Cloudscraper url HTTP_TIMEOUT; EvSleep 600] ++ ext).
        rewrite Ht, <- app_assoc. split; [reflexivity|].
        split; [allowed|].
        destruct (fst (retry_loop HTTP_TIMEOUT http_get n last url _))
          as [b | e].
        -- destruct Hres as (pre & st' & -> & Hg & Hst).
           exists ([EvGet Cloudscraper url HTTP_TIMEOUT; EvSleep 600] ++ pre),
             st'.
           rewrite <- app_assoc in Hg. rewrite <- app_assoc. auto.
        -- destruct Hres as [Hreq Hwho]. split; [|exact Hwho].
           rewrite RetryFacts.requests_app, Hreq. reflexivity.
      * destruct ((400 <=? st) && (st <? 600))%Z eqn:H4; cbv iota.
        -- apply andb_prop in H4.
           destruct (IH (Some (HTTPError st))
                       (t ++ [EvGet Cloudscraper url HTTP_TIMEOUT;
                              EvSleep 400]))
             as (ext & Ht & Hall & Hres).
           exists ([EvGet Cloudscraper url HTTP_TIMEOUT; EvSleep 400] ++ ext).
           rewrite Ht, <- app_assoc. split; [reflexivity|].
           split; [allowed|].
           destruct (fst (retry_loop HTTP_TIMEOUT http_get n _ url _))
             as [b | e].
           ++ destruct Hres as (pre & st' & -> & Hg & Hst).
              exists ([EvGet Cloudscraper url HTTP_TIMEOUT; EvSleep 400]
                        ++ pre), st'.
              rewrite <- app_assoc in Hg. rewrite <- app_assoc. auto.
           ++ destruct Hres as [Hreq Hwho]. split.
              ** rewrite RetryFacts.requests_app, Hreq. reflexivity.
              ** destruct Hwho as [H | [[= <-] | H]]; auto.
                 right. right. exists t. right. exists t, st, body.
                 destruct H4 as [Ha Hb].
                 apply Z.leb_le in Ha. repeat split; auto; lia.
        -- exists [EvGet Cloudscraper url HTTP_TIMEOUT]. simpl.
           split; [reflexivity|]. split; [constructor; [auto | constructor]|].
           exists [], st. rewrite app_nil_r. repeat split; auto.
           destruct (Z.leb_spec 400 st); [|lia].
           destruct (Z.ltb_spec st 600); [discriminate H4 | lia].
    + destruct (IH (Some e)
                   (t ++ [EvGet Cloudscraper url HTTP_TIMEOUT; EvSleep 400]))
        as (ext & Ht & Hall & Hres).
      exists ([EvGet Cloudscraper url HTTP_TIMEOUT; EvSleep 400] ++ ext).
      rewrite Ht, <- app_assoc. split; [reflexivity|].
      split; [allowed|].
      destruct (fst (retry_loop HTTP_TIMEOUT http_get n _ url _))
        as [b | e'].
      * destruct Hres as (pre & st' & -> & Hg & Hst).
        exists ([EvGet Cloudscraper url HTTP_TIMEOUT; EvSleep 400] ++ pre),
          st'.
        rewrite <- app_assoc in Hg. rewrite <- app_assoc. auto.
      * destruct Hres as [Hreq Hwho]. split.
        -- rewrite RetryFacts.requests_app, Hreq. reflexivity.
        -- destruct Hwho as [H | [[= <-] | H]]; auto.
           right. right. exists t. now left.
Qed.

Variable RETRIES : Z.

(** A text that [_get_with_retries] returns is the body of the answer to
    the last request it sent, and that answer had a status below 400. *)
Theorem get_with_retries_returns (url body : string) (t t' : trace) :
  _get_with_retries HTTP_TIMEOUT RETRIES http_get url t = (Ok body, t') ->
  exists t0 st,
    t' = t0 ++ [EvGet Cloudscraper url HTTP_TIMEOUT]
    /\ http_get t0 Cloudscraper url = Response st body
    /\ (st < 400)%Z.
Proof.
  unfold _get_with_retries. intros H.
  destruct (retry_loop_inv url (Z.to_nat (RETRIES + 1)) None t)
    as (ext & Ht & _ & Hres).
  rewrite H in Ht, Hres. simpl in Ht, Hres.
  destruct Hres as (pre & st & -> & Hg & Hst).
  exists (t ++ pre), st. rewrite Ht, app_assoc. auto.
Qed.

(** [_get_with_retries] raises only after it has sent all of its
    [RETRIES + 1] requests; what it raises is an exception of the network,
    the [HTTPError] of an answer with a status from 400 to 499, or
    [TypeError]. *)
Theorem get_with_retries_raises (url : string) (e : exn) (t t' : trace) :
  _get_with_retries HTTP_TIMEOUT RETRIES http_get url t = (Raise e, t') ->
  requests t' = requests t + Z.to_nat (RETRIES + 1)
  /\ (e = TypeError
      \/ (exists t0, http_get t0 Cloudscraper url = Failure e)
      \/ (exists t0 st body,
             http_get t0 Cloudscraper url = Response st body
             /\ (400 <= st < 500)%Z /\ e = HTTPError st)).
Proof.
  unfold _get_with_retries. intros H.
  destruct (retry_loop_inv url (Z.to_nat (RETRIES + 1)) None t)
    as (ext & Ht & _ & Hres).
  rewrite H in Ht, Hres. simpl in Ht, Hres.
  destruct Hres as [Hreq Hwho]. split.
  - now rewrite Ht, RetryFacts.requests_app, Hreq.
  - destruct Hwho as [-> | [Hl | (t0 & [Hf | Hh])]]; auto.
    + discriminate Hl.
    + right. left. now exists t0.
Qed.

(** [_get_with_retries] requests nothing but its URL, with the configured
    timeout, and sleeps only for 0.6 s or 0.4 s. *)
Theorem get_with_retries_events (url : string) (t : trace) :
  exists ext,
    snd (_get_with_retries HTTP_TIMEOUT RETRIES http_get url t) = t ++ ext
    /\ Forall (fun e => e = EvGet Cloudscraper url HTTP_TIMEOUT
                        \/ e = EvSleep 600 \/ e = EvSleep 400) ext.
Proof.
  destruct (retry_loop_inv url (Z.to_nat (RETRIES + 1)) None t)
    as (ext & Ht & Hall & _).
  now exists ext.
Qed.

(** With a negative number of retries no request is sent and the call
    fails with [TypeError]. *)
Theorem get_with_retries_negative (url : string) (t : trace) :
  (RETRIES < 0)%Z ->
  _get_with_retries HTTP_TIMEOUT RETRIES http_get url t
  = (Raise TypeError, t).
Proof.
  intros H. unfold _get_with_retries.
  replace (Z.to_nat (RETRIES + 1)) with 0 by lia. reflexivity.
Qed.

(** What [extract_episode_stream_and_subtitle] returns was searched in
    the body of the answer to its last request, an answer with a status
    below 400; the searches add no request and raise nothing. *)
Theorem extract_reads_served_page (episode_url : string)
        (hls sub : option string) (t t' : trace) :
  extract_episode_stream_and_subtitle HTTP_TIMEOUT RETRIES http_get
    episode_url t = (Ok (hls, sub), t') ->
  exists t0 st html,
    t' = t0 ++ [EvGet Cloudscraper episode_url HTTP_TIMEOUT]
    /\ http_get t0 Cloudscraper episode_url = Response st html
    /\ (st < 400)%Z
    /\ hls = find_hls html /\ sub = find_sub html.
Proof.
  unfold extract_episode_stream_and_subtitle, bind.
  destruct (_get_with_retries HTTP_TIMEOUT RETRIES http_get episode_url t)
    as [[html | e] t1] eqn:E; [|discriminate].
  intros [= <- <- <-].
  apply get_with_retries_returns in E as (t0 & st & -> & Hg & Hst).
  now exists t0, st, html.
Qed.

End WithEnv.

Import Examples.

Lemma get_with_retries_returns_witness :
  exists t0 st,
    [EvGet Cloudscraper "https://h.example/ep" 20000]
    = t0 ++ [EvGet Cloudscraper "https://h.example/ep" 20000]
    /\ serves 200 player_page t0 Cloudscraper "https://h.example/ep"
       = Response st player_page
    /\ (st < 400)%Z.
Proof.
  exact (get_with_retries_returns 20000 (serves 200 player_page) 2
           "https://h.example/ep" player_page [] _ eq_refl).
Defined.

Lemma get_with_retries_raises_witness :
  requests [EvGet Cloudscraper "u" 20000; EvSleep 400;
            EvGet Cloudscraper "u" 20000; EvSleep 400;
            EvGet Cloudscraper "u" 20000; EvSleep 400]
  = requests [] + Z.to_nat (2 + 1).
Proof.
  exact (proj1 (get_with_retries_raises 20000 (serves 404 "gone") 2
                  "u" (HTTPError 404) [] _ eq_refl)).
Defined.

Lemma get_with_retries_negative_witness :
  _get_with_retries 20000 (-1) offline "u" [] = (Raise TypeError, []).
Proof.
  apply (get_with_retries_negative 20000 offline (-1) "u" []). lia.
Defined.

Lemma extract_reads_served_page_witness :
  exists t0 st html,
    [EvGet Cloudscraper "https://h.example/ep" 20000]
    = t0 ++ [EvGet Cloudscraper "https://h.example/ep" 20000]
    /\ serves 200 player_page t0 Cloudscraper "https://h.example/ep"
       = Response st html
    /\ (st < 400)%Z
    /\ Some "https://cdn/x.m3u8"%string = find_hls html
    /\ Some "https://cdn/en.vtt"%string = find_sub html.
Proof.
  exact (extract_reads_served_page 20000 (serves 200 player_page) 2
           "https://h.example/ep" _ _ [] _ eq_refl).
Defined.

End FetchFacts.
